(** * To-do backend: the WebSocket synchronisation core of [index.js]

    A shallow embedding of the message handler of the server, with its two
    stores: the MongoDB collection behind the [Todo] model (used when
    [mongoose.connection.readyState === 1]) and the [inMemory] array used
    otherwise.  The handler is a function from a server state and a client
    message to a new state and the list of messages it sends, in order.

    What is taken from the environment and what is left out:
    - ids are strings.  The cast of a string to an [ObjectId], which every
      query on [_id] performs, belongs to the environment ([cast_oid]): it
      gives the [_id], as [String(doc._id)] prints it, that the string
      denotes, or fails, and then the query rejects with a [CastError];
    - a property of a payload is missing ([undefined]), [null], or a value
      of the type the schema gives it; an element of [inMemory] is an
      object with (some of) the ten properties the server reads and
      writes, other properties are not modelled;
    - the clock is read once per message, and [updatedAt], which nothing
      reads, is left out;
    - a call that throws (a [CastError], a failed validation of the
      required [text] in [create], [insertMany] and [save], a property
      read from [null]) ends the handler with the effects it had so far:
      the caller's [try/catch] ignores the error.  [findByIdAndUpdate]
      runs no validator;
    - the object [todo:reorder] uses as a map is a plain object: it
      inherits the members of [Object.prototype], and an assignment to
      its [__proto__] replaces its prototype. *)

From Stdlib Require Import ZArith String Ascii List Lia Bool Sorted.
From stdpp Require Import base decidable option list gmap strings pretty.

Open Scope string_scope.
Open Scope list_scope.
Open Scope Z_scope.

(** ** JavaScript values *)

(** A property of a parsed payload: missing, [null], or a value. *)
Inductive Field (A : Type) : Type :=
| Undefined
| Null
| Value (a : A).

Arguments Undefined {A}.
Arguments Null {A}.
Arguments Value {A} a.

(** What [||], [!x] and [if (x)] look at: the value, if there is one. *)
Definition read {A : Type} (f : Field A) : option A :=
  match f with
  | Value a => Some a
  | _ => None
  end.

Coercion read : Field >-> option.

(** [x !== undefined] *)
Definition supplied {A : Type} (f : Field A) : bool :=
  match f with
  | Undefined => false
  | _ => true
  end.

(** Truthiness of a string that may be missing or [null] ([None]). *)
Definition truthy (v : option string) : bool :=
  match v with
  | Some s => negb (String.eqb s "")
  | None => false
  end.

(** [a || b] on optional strings. *)
Definition js_or (a b : option string) : option string :=
  if truthy a then a else b.

(** [a || 'lit'], where the right operand is a string literal. *)
Definition js_or_lit (a : option string) (lit : string) : string :=
  match a with
  | Some s => if String.eqb s "" then lit else s
  | None => lit
  end.

(** ** Data model *)

(** A task as a plain object: the elements of [inMemory] and the objects
    put in [sync:update] and [sync:replace] payloads.  [None] is a
    property that is missing or [null] ([t_id]: that is missing);
    [t_completed] and [t_locked] are read by truthiness only, so a missing
    flag is [false]; [t_dependencies] is [None] when the property is not
    an array. *)
Record Todo := mkTodo {
  t_id : option string;
  t_text : option string;
  t_completed : bool;
  t_category : option string;
  t_priority : option string;
  t_position : Z;
  t_dueDate : option string;
  t_dueTime : option string;
  t_dependencies : option (list string);
  t_locked : bool
}.

(** A document of the [Todo] collection ([models/Todo.js], with
    [timestamps: true]); [d_id] is [_id] as a string, [None] is [null]. *)
Record Doc := mkDoc {
  d_id : string;
  d_text : option string;
  d_completed : bool;
  d_category : option string;
  d_priority : option string;
  d_dueDate : option string;
  d_dueTime : option string;
  d_dependencies : list string;
  d_locked : bool;
  d_position : Z;
  d_createdAt : Z
}.

(** The payload of [todo:add] and [todo:edit], and the body of
    [POST /api/todos].  [p_id] and [p_completed] are read by truthiness
    only; [p_dependencies] is [None] when the property is not an array. *)
Record Payload := mkPayload {
  p_id : option string;
  p_text : Field string;
  p_completed : bool;
  p_category : Field string;
  p_priority : Field string;
  p_dueDate : Field string;
  p_dueTime : Field string;
  p_dependencies : option (list string)
}.

(** What the handler reads from its environment during one message:
    the clock, the parser behind [new Date(string)] ([None] is an invalid
    date, whose time value is [NaN]), the [_id] MongoDB gives to the
    [i]-th document the message inserts, and the cast of a string to an
    [ObjectId] ([None]: the cast fails). *)
Record World := mkWorld {
  now : Z;
  date_parse : string -> option Z;
  new_oid : nat -> string;
  cast_oid : string -> option string
}.

(** The two stores. *)
Record Server := mkServer {
  collection : list Doc;
  inMemory : list Todo
}.

Definition set_collection (s : Server) (c : list Doc) : Server :=
  {| collection := c; inMemory := inMemory s |}.

Definition set_inMemory (s : Server) (m : list Todo) : Server :=
  {| collection := collection s; inMemory := m |}.

(** Messages of the protocol. *)
Inductive ServerMsg :=
| sync_replace (todos : list Todo)
| sync_update (todo : Todo)
| sync_confirm (tempId realId : string)
| todo_reminder (id : option string) (message : string).

Inductive ClientMsg :=
| sync_request
| todo_add (todo : Payload)
| todo_edit (p : Payload)
| todo_remove (id : option string)
| todo_toggle (id : option string)
| todo_clearCompleted
| todo_clearAll
| todo_reorder (order : list string)
| todo_restoreMany (items : list Todo).

(** [Send m] is [ws.send] to the requester; [Broadcast m except] is
    [broadcast(m, ws)] when [except] is [true] and [broadcast(m)] otherwise. *)
Inductive Event :=
| Send (m : ServerMsg)
| Broadcast (m : ServerMsg) (except : bool).

(** ** The collection: the mongoose calls of the handler *)

Module Mongo.

(** The object built from a document at every read site of [index.js]. *)
Definition toObject (d : Doc) : Todo :=
  {| t_id := Some (d_id d);
     t_text := d_text d;
     t_completed := d_completed d;
     t_category := d_category d;
     t_priority := d_priority d;
     t_position := d_position d;
     t_dueDate := js_or (d_dueDate d) None;
     t_dueTime := js_or (d_dueTime d) None;
     t_dependencies := Some (d_dependencies d);
     t_locked := d_locked d |}.

(** [sort({ position: 1, createdAt: -1 })]: [a] may come before [b]. *)
Definition sort_le (a b : Doc) : bool :=
  (d_position a <? d_position b)
  || ((d_position a =? d_position b) && (d_createdAt b <=? d_createdAt a)).

Fixpoint sort_insert (d : Doc) (l : list Doc) : list Doc :=
  match l with
  | [] => [d]
  | x :: r => if sort_le d x then d :: x :: r else x :: sort_insert d r
  end.

Definition sort (l : list Doc) : list Doc := foldr sort_insert [] l.

(** *** The collection, addressed by [_id] *)

(** The document with the [_id] [oid]. *)
Definition by_id (oid : string) (c : list Doc) : option Doc :=
  List.find (fun d => String.eqb (d_id d) oid) c.

(** The update applied to the document with the [_id] [oid], if there is
    one. *)
Fixpoint update_by_id (oid : string) (upd : Doc -> Doc) (c : list Doc)
  : list Doc :=
  match c with
  | [] => []
  | d :: r =>
      if String.eqb (d_id d) oid then upd d :: r
      else d :: update_by_id oid upd r
  end.

Fixpoint delete_by_id (oid : string) (c : list Doc) : list Doc :=
  match c with
  | [] => []
  | d :: r =>
      if String.eqb (d_id d) oid then r else d :: delete_by_id oid r
  end.

(** *** The queries of [index.js]

    A query that takes an id from the client casts it first: the result
    is [None] when the cast fails and the query rejects. *)

(** [Todo.findById(id)] *)
Definition findById (w : World) (id : string) (c : list Doc)
  : option (option Doc) :=
  match cast_oid w id with
  | Some oid => Some (by_id oid c)
  | None => None
  end.

(** [Todo.findByIdAndUpdate(id, update)]: the collection afterwards. *)
Definition findByIdAndUpdate (w : World) (id : string) (upd : Doc -> Doc)
    (c : list Doc) : option (list Doc) :=
  match cast_oid w id with
  | Some oid => Some (update_by_id oid upd c)
  | None => None
  end.

(** [Todo.findByIdAndDelete(id)]: the collection afterwards. *)
Definition findByIdAndDelete (w : World) (id : string) (c : list Doc)
  : option (list Doc) :=
  match cast_oid w id with
  | Some oid => Some (delete_by_id oid c)
  | None => None
  end.

(** The cast of every element of [$in]. *)
Definition cast_all (w : World) (ids : list string) : option (list string) :=
  mapM (cast_oid w) ids.

(** [Todo.find({ _id: { $in: ids } })] *)
Definition find_in (w : World) (ids : list string) (c : list Doc)
  : option (list Doc) :=
  match cast_all w ids with
  | Some oids => Some (filter (fun d => d_id d ∈ oids) c)
  | None => None
  end.

(** [findOne().sort({ position: -1 })], reduced to the position read
    from it: the greatest position of the collection. *)
Fixpoint last_position (c : list Doc) : option Z :=
  match c with
  | [] => None
  | d :: r =>
      match last_position r with
      | None => Some (d_position d)
      | Some m => Some (Z.max (d_position d) m)
      end
  end.

(** [find({ dependencies: id })]: an array of strings matches when it
    contains the string. *)
Definition find_dependents (id : string) (c : list Doc) : list Doc :=
  filter (fun d => id ∈ d_dependencies d) c.

Definition set_position (i : Z) (d : Doc) : Doc :=
  {| d_id := d_id d; d_text := d_text d; d_completed := d_completed d;
     d_category := d_category d; d_priority := d_priority d;
     d_dueDate := d_dueDate d; d_dueTime := d_dueTime d;
     d_dependencies := d_dependencies d; d_locked := d_locked d;
     d_position := i; d_createdAt := d_createdAt d |}.

Definition set_locked (b : bool) (d : Doc) : Doc :=
  {| d_id := d_id d; d_text := d_text d; d_completed := d_completed d;
     d_category := d_category d; d_priority := d_priority d;
     d_dueDate := d_dueDate d; d_dueTime := d_dueTime d;
     d_dependencies := d_dependencies d; d_locked := b;
     d_position := d_position d; d_createdAt := d_createdAt d |}.

Definition set_completed (b : bool) (d : Doc) : Doc :=
  {| d_id := d_id d; d_text := d_text d; d_completed := b;
     d_category := d_category d; d_priority := d_priority d;
     d_dueDate := d_dueDate d; d_dueTime := d_dueTime d;
     d_dependencies := d_dependencies d; d_locked := d_locked d;
     d_position := d_position d; d_createdAt := d_createdAt d |}.

End Mongo.

(** ** Helpers of [index.js] *)

Definition getAllTodos (connected : bool) (s : Server) : list Todo :=
  if connected then map Mongo.toObject (Mongo.sort (collection s))
  else inMemory s.

(** [wss.on('connection', ...)]: the state sent to a new session. *)
Definition onConnection (connected : bool) (s : Server) : list Event :=
  [Send (sync_replace (getAllTodos connected s))].

Definition day : Z := 24 * 60 * 60 * 1000.

(** [dueTime ? ('T' + dueTime + ':00') : 'T00:00:00'] *)
Definition time_suffix (dueTime : option string) : string :=
  match dueTime with
  | Some tm => if String.eqb tm "" then "T00:00:00" else "T" +:+ tm +:+ ":00"
  | None => "T00:00:00"
  end.

Definition computePriorityByDue (w : World) (dueDate dueTime : option string)
  : option string :=
  match dueDate with
  | None => None
  | Some dd =>
      if String.eqb dd "" then None
      else
        match date_parse w (dd +:+ time_suffix dueTime) with
        | None => None
        | Some target =>
            let diff := target - now w in
            if diff <=? 0 then Some "high"
            else if diff <=? day then Some "high"
            else if diff <=? 3 * day then Some "medium"
            else None
        end
  end.

(** [inMemory.findIndex(x => x.id === id)], with the element found. *)
Definition findIndex (id : string) (m : list Todo) : option (nat * Todo) :=
  list_find (fun x => t_id x = Some id) m.

(** [inMemory.find(x => x.id === dep)] *)
Definition find_todo (id : string) (m : list Todo) : option Todo :=
  snd <$> findIndex id m.

(** The test of [deps.some(...)]: the dependency is missing or not completed. *)
Definition blocks (m : list Todo) (dep : string) : bool :=
  match find_todo dep m with
  | Some t => negb (t_completed t)
  | None => true
  end.

(** [computeLockedFor(id, deps)]; the [id] argument is not read.  The
    result is [None] when the promise is rejected, which the query of the
    collection does when a dependency cannot be cast. *)
Definition computeLockedFor (connected : bool) (w : World) (s : Server)
    (id : option string) (deps : list string) : option bool :=
  match deps with
  | [] => Some false
  | _ =>
      if connected then
        match Mongo.find_in w deps (collection s) with
        | Some docs =>
            let allDone := forallb d_completed docs in
            Some (negb allDone)
        | None => None
        end
      else Some (existsb (blocks (inMemory s)) deps)
  end.

(** ** The message handler *)

Definition reminder_text : string :=
  "A dependency finished — this task is unlocked.".

(** [if (tempId) ws.send(... 'sync:confirm' ...)] *)
Definition confirm (tempId : option string) (realId : string) : list Event :=
  match tempId with
  | Some tid =>
      if String.eqb tid "" then [] else [Send (sync_confirm tid realId)]
  | None => []
  end.

(** [dueDate: x || null] *)
Definition or_null (v : option string) : option string := js_or v None.

(** [todo.priority || auto || 'low'] *)
Definition add_priority (w : World) (todo : Payload) : string :=
  let auto := computePriorityByDue w (p_dueDate todo) (p_dueTime todo) in
  js_or_lit (js_or (p_priority todo) auto) "low".

(** *** The branches for the [inMemory] array *)

Module Memory.

Definition set_locked (b : bool) (t : Todo) : Todo :=
  {| t_id := t_id t; t_text := t_text t; t_completed := t_completed t;
     t_category := t_category t; t_priority := t_priority t;
     t_position := t_position t; t_dueDate := t_dueDate t;
     t_dueTime := t_dueTime t; t_dependencies := t_dependencies t;
     t_locked := b |}.

Definition set_completed (b : bool) (t : Todo) : Todo :=
  {| t_id := t_id t; t_text := t_text t; t_completed := b;
     t_category := t_category t; t_priority := t_priority t;
     t_position := t_position t; t_dueDate := t_dueDate t;
     t_dueTime := t_dueTime t; t_dependencies := t_dependencies t;
     t_locked := t_locked t |}.

Definition set_position (i : Z) (t : Todo) : Todo :=
  {| t_id := t_id t; t_text := t_text t; t_completed := t_completed t;
     t_category := t_category t; t_priority := t_priority t;
     t_position := i; t_dueDate := t_dueDate t;
     t_dueTime := t_dueTime t; t_dependencies := t_dependencies t;
     t_locked := t_locked t |}.

(** The object [todo:add] builds, given the lock computed for it. *)
Definition added (w : World) (s : Server) (todo : Payload) (locked : bool)
  : Todo :=
  {| t_id := Some ("m_" +:+ pretty (now w)); t_text := p_text todo;
     t_completed := p_completed todo;
     t_category := Some (js_or_lit (p_category todo) "other");
     t_priority := Some (add_priority w todo);
     t_position := Z.of_nat (length (inMemory s));
     t_dueDate := or_null (p_dueDate todo);
     t_dueTime := or_null (p_dueTime todo);
     t_dependencies := Some (default [] (p_dependencies todo));
     t_locked := locked |}.

Definition add (w : World) (s : Server) (todo : Payload)
  : Server * list Event :=
  let id := "m_" +:+ pretty (now w) in
  let deps := default [] (p_dependencies todo) in
  match computeLockedFor false w s None deps with
  | None => (s, [])
  | Some locked =>
      let obj := added w s todo locked in
      (set_inMemory s (obj :: inMemory s),
       confirm (p_id todo) id ++ [Broadcast (sync_update obj) true])
  end.

(** The assignments of [todo:edit] to [inMemory[idx]], before [locked]. *)
Definition edit_fields (w : World) (p : Payload) (x : Todo) : Todo :=
  let auto := computePriorityByDue w (p_dueDate p) (p_dueTime p) in
  {| t_id := t_id x;
     t_text := if supplied (p_text p) then read (p_text p) else t_text x;
     t_completed := t_completed x;
     t_category :=
       if supplied (p_category p) then js_or (p_category p) (t_category x)
       else t_category x;
     t_priority :=
       Some (js_or_lit (js_or (js_or (p_priority p) auto) (t_priority x)) "low");
     t_position := t_position x;
     t_dueDate :=
       if supplied (p_dueDate p) then or_null (p_dueDate p) else t_dueDate x;
     t_dueTime :=
       if supplied (p_dueTime p) then or_null (p_dueTime p) else t_dueTime x;
     t_dependencies :=
       match p_dependencies p with
       | Some deps => Some deps
       | None => t_dependencies x
       end;
     t_locked := t_locked x |}.

Definition edit (w : World) (s : Server) (id : string) (p : Payload)
  : Server * list Event :=
  match findIndex id (inMemory s) with
  | None => (s, [])
  | Some (idx, x) =>
      let x1 := edit_fields w p x in
      let s1 := set_inMemory s (<[idx := x1]> (inMemory s)) in
      match computeLockedFor false w s1 (Some id)
              (default [] (t_dependencies x1)) with
      | None => (s1, [])
      | Some locked =>
          let x2 := set_locked locked x1 in
          (set_inMemory s (<[idx := x2]> (inMemory s1)),
           [Broadcast (sync_update x2) false])
      end
  end.

Definition remove (s : Server) (id : string) : Server * list Event :=
  let m := filter (fun x => t_id x ≠ Some id) (inMemory s) in
  (set_inMemory s m, [Broadcast (sync_replace m) false]).

(** One turn of [for (const other of inMemory)] in [todo:toggle], at
    index [i]; [other.locked = false] updates the element in place. *)
Definition unlock_turn (tid : string) (acc : list Todo * list Event)
    (i : nat) : list Todo * list Event :=
  let '(m, out) := acc in
  match m !! i with
  | None => acc
  | Some other =>
      match t_dependencies other with
      | None => acc
      | Some deps =>
          if bool_decide (tid ∈ deps) then
            let locked := existsb (blocks m) deps in
            if negb locked && t_locked other then
              let other' := set_locked false other in
              (<[i := other']> m,
               out ++ [Broadcast (sync_update other') false;
                       Broadcast (todo_reminder (t_id other) reminder_text) false])
            else acc
          else acc
      end
  end.

Definition toggle (s : Server) (id : string) : Server * list Event :=
  match findIndex id (inMemory s) with
  | None => (s, [])
  | Some (idx, x) =>
      let x' := set_completed (negb (t_completed x)) x in
      let m1 := <[idx := x']> (inMemory s) in
      let out1 := [Broadcast (sync_update x') false] in
      if t_completed x' then
        let '(m2, out2) :=
          foldl (unlock_turn id) (m1, out1) (seq 0 (length m1)) in
        (set_inMemory s m2, out2)
      else (set_inMemory s m1, out1)
  end.

Definition clearCompleted (s : Server) : Server * list Event :=
  let m := filter (fun x => t_completed x = false) (inMemory s) in
  (set_inMemory s m, [Broadcast (sync_replace m) false]).

Definition clearAll (s : Server) : Server * list Event :=
  (set_inMemory s [], [Broadcast (sync_replace []) false]).

(** The object [map] of [todo:reorder]: its own properties, and the task
    that became its prototype, if one did ([None]: the prototype is
    [Object.prototype]). *)
Record Index := mkIndex {
  own : gmap string Todo;
  proto : option Todo
}.

(** The property name [map[t.id] = t] assigns to. *)
Definition key_of (t : Todo) : string := default "undefined" (t_id t).

(** [map[t.id] = t]: the name [__proto__] is the accessor of
    [Object.prototype], whose setter replaces the prototype of [map]. *)
Definition assign (map : Index) (t : Todo) : Index :=
  if String.eqb (key_of t) "__proto__"
  then {| own := own map; proto := Some t |}
  else {| own := <[key_of t := t]> (own map); proto := proto map |}.

(** [const map = {}; inMemory.forEach(t => map[t.id] = t)] *)
Definition index_by_id (m : list Todo) : Index :=
  foldl assign {| own := ∅; proto := None |} m.

(** The names of the members of [Object.prototype], [__proto__] apart. *)
Definition object_prototype : list string :=
  ["constructor"; "__defineGetter__"; "__defineSetter__"; "hasOwnProperty";
   "__lookupGetter__"; "__lookupSetter__"; "isPrototypeOf";
   "propertyIsEnumerable"; "toString"; "valueOf"; "toLocaleString"].

(** Whether the task [t] has a truthy property called [name]. *)
Definition truthy_property (t : Todo) (name : string) : bool :=
  if String.eqb name "id" then truthy (t_id t)
  else if String.eqb name "text" then truthy (t_text t)
  else if String.eqb name "completed" then t_completed t
  else if String.eqb name "category" then truthy (t_category t)
  else if String.eqb name "priority" then truthy (t_priority t)
  else if String.eqb name "position" then negb (t_position t =? 0)
  else if String.eqb name "dueDate" then truthy (t_dueDate t)
  else if String.eqb name "dueTime" then truthy (t_dueTime t)
  else if String.eqb name "dependencies" then bool_decide (is_Some (t_dependencies t))
  else if String.eqb name "locked" then t_locked t
  else false.

(** What [map[id]] evaluates to: a task, another truthy value (a member
    of [Object.prototype], [Object.prototype] itself, or a truthy property
    of the task that is the prototype), or a falsy value. *)
Inductive Got :=
| got_task (t : Todo)
| got_other
| got_nothing.

Definition get (map : Index) (id : string) : Got :=
  if String.eqb id "__proto__" then
    match proto map with
    | Some t => got_task t
    | None => got_other
    end
  else
    match own map !! id with
    | Some t => got_task t
    | None =>
        if match proto map with
           | Some t => truthy_property t id
           | None => false
           end
        then got_other
        else if bool_decide (id ∈ object_prototype) then got_other
        else got_nothing
    end.

(** [{ id, text: '', completed: false }], then [position: i]. *)
Definition placeholder (id : string) (i : Z) : Todo :=
  {| t_id := Some id; t_text := Some ""; t_completed := false;
     t_category := None; t_priority := None; t_position := i;
     t_dueDate := None; t_dueTime := None; t_dependencies := None;
     t_locked := false |}.

(** [{ ...v, position: i }] for a value [v] that is not a task: none of
    the properties of a task is copied. *)
Definition only_position (i : Z) : Todo :=
  {| t_id := None; t_text := None; t_completed := false;
     t_category := None; t_priority := None; t_position := i;
     t_dueDate := None; t_dueTime := None; t_dependencies := None;
     t_locked := false |}.

(** [{ ...(map[id] || { id, text: '', completed: false }), position: i }] *)
Definition reorder_entry (map : Index) (i : nat) (id : string) : Todo :=
  match get map id with
  | got_task t => set_position (Z.of_nat i) t
  | got_other => only_position (Z.of_nat i)
  | got_nothing => placeholder id (Z.of_nat i)
  end.

Definition reorder (s : Server) (order : list string) : Server * list Event :=
  let map := index_by_id (inMemory s) in
  let m := imap (reorder_entry map) order in
  (set_inMemory s m, [Broadcast (sync_replace m) false]).

Definition restoreMany (s : Server) (items : list Todo)
  : Server * list Event :=
  let m := items ++ inMemory s in
  (set_inMemory s m, [Broadcast (sync_replace m) false]).

End Memory.

(** *** The branches for the collection *)

Module Durable.

(** [last ? (last.position || 0) + 1 : 0] *)
Definition next_position (c : list Doc) : Z :=
  match Mongo.last_position c with
  | Some p => p + 1
  | None => 0
  end.

(** The document [todo:add] creates, given the lock computed for it. *)
Definition added (w : World) (s : Server) (todo : Payload) (locked : bool)
  : Doc :=
  {| d_id := new_oid w 0; d_text := p_text todo;
     d_completed := p_completed todo;
     d_category := Some (js_or_lit (p_category todo) "other");
     d_priority := Some (add_priority w todo);
     d_dueDate := or_null (p_dueDate todo);
     d_dueTime := or_null (p_dueTime todo);
     d_dependencies := default [] (p_dependencies todo);
     d_locked := locked;
     d_position := next_position (collection s); d_createdAt := now w |}.

(** [computeLockedFor] rejects when a dependency cannot be cast;
    [Todo.create] validates [text: required] and rejects when the text is
    missing or empty.  Either way the handler stops. *)
Definition add (w : World) (s : Server) (todo : Payload)
  : Server * list Event :=
  let deps := default [] (p_dependencies todo) in
  match computeLockedFor true w s None deps with
  | None => (s, [])
  | Some locked =>
      if truthy (p_text todo) then
        let doc := added w s todo locked in
        let real := Mongo.toObject doc in
        (set_collection s (collection s ++ [doc]),
         confirm (p_id todo) (d_id doc) ++ [Broadcast (sync_update real) true])
      else (s, [])
  end.

(** The [update] object of [todo:edit], applied to a document. *)
Definition edit_update (w : World) (p : Payload) (d : Doc) : Doc :=
  let auto := computePriorityByDue w (p_dueDate p) (p_dueTime p) in
  {| d_id := d_id d;
     d_text := if supplied (p_text p) then read (p_text p) else d_text d;
     d_completed := d_completed d;
     d_category :=
       if supplied (p_category p) then read (p_category p) else d_category d;
     d_priority := Some (js_or_lit (js_or (p_priority p) auto) "low");
     d_dueDate :=
       if supplied (p_dueDate p) then or_null (p_dueDate p) else d_dueDate d;
     d_dueTime :=
       if supplied (p_dueTime p) then or_null (p_dueTime p) else d_dueTime d;
     d_dependencies :=
       match p_dependencies p with
       | Some deps => deps
       | None => d_dependencies d
       end;
     d_locked := d_locked d;
     d_position := d_position d;
     d_createdAt := d_createdAt d |}.

(** Every call may end the handler: the two queries by id when the id
    cannot be cast, the read of [doc.dependencies] when [findById] gives
    [null], [computeLockedFor] when a dependency of the document cannot
    be cast.  What was written before stays written. *)
Definition edit (w : World) (s : Server) (id : string) (p : Payload)
  : Server * list Event :=
  match Mongo.findByIdAndUpdate w id (edit_update w p) (collection s) with
  | None => (s, [])
  | Some c1 =>
      match Mongo.findById w id c1 with
      | Some (Some doc) =>
          match computeLockedFor true w (set_collection s c1) (Some id)
                  (d_dependencies doc) with
          | None => (set_collection s c1, [])
          | Some locked =>
              if negb (Bool.eqb locked (d_locked doc)) then
                match Mongo.findByIdAndUpdate w id (Mongo.set_locked locked) c1 with
                | None => (set_collection s c1, [])
                | Some c2 =>
                    (set_collection s c2,
                     [Broadcast
                        (sync_update (Mongo.toObject (Mongo.set_locked locked doc)))
                        false])
                end
              else
                (set_collection s c1,
                 [Broadcast (sync_update (Mongo.toObject doc)) false])
          end
      | _ => (set_collection s c1, [])
      end
  end.

Definition replace_all (s : Server) : list Event :=
  [Broadcast (sync_replace (getAllTodos true s)) false].

Definition remove (w : World) (s : Server) (id : string)
  : Server * list Event :=
  match Mongo.findByIdAndDelete w id (collection s) with
  | None => (s, [])
  | Some c =>
      let s' := set_collection s c in
      (s', replace_all s')
  end.

(** [for (const dep of dependents)] in [todo:toggle].  The loop ends
    when [computeLockedFor] rejects; if [newDoc] were [null], reading
    [newDoc._id] would end it too. *)
Fixpoint unlock_dependents (w : World) (s : Server) (c : list Doc)
    (dependents : list Doc) : list Doc * list Event :=
  match dependents with
  | [] => (c, [])
  | dep :: rest =>
      match computeLockedFor true w (set_collection s c) (Some (d_id dep))
              (d_dependencies dep) with
      | None => (c, [])
      | Some locked =>
          if negb locked && d_locked dep then
            let c' := Mongo.update_by_id (d_id dep) (Mongo.set_locked false) c in
            match Mongo.by_id (d_id dep) c' with
            | None => (c', [])
            | Some newDoc =>
                let '(c'', out) := unlock_dependents w s c' rest in
                (c'',
                 Broadcast
                   (sync_update (Mongo.toObject (Mongo.set_locked false newDoc)))
                   false
                 :: Broadcast (todo_reminder (Some (d_id newDoc)) reminder_text) false
                 :: out)
            end
          else unlock_dependents w s c rest
      end
  end.

(** [doc.save()] validates the document before it writes: it rejects
    when the stored text is empty or [null]. *)
Definition toggle (w : World) (s : Server) (id : string)
  : Server * list Event :=
  match Mongo.findById w id (collection s) with
  | Some (Some doc0) =>
      if truthy (d_text doc0) then
        let doc := Mongo.set_completed (negb (d_completed doc0)) doc0 in
        let c1 :=
          Mongo.update_by_id (d_id doc0)
            (Mongo.set_completed (negb (d_completed doc0))) (collection s) in
        let out1 := Broadcast (sync_update (Mongo.toObject doc)) false in
        if d_completed doc then
          let dependents := Mongo.find_dependents (d_id doc) c1 in
          let '(c2, out2) := unlock_dependents w s c1 dependents in
          (set_collection s c2, out1 :: out2)
        else (set_collection s c1, [out1])
      else (s, [])
  | _ => (s, [])
  end.

Definition clearCompleted (s : Server) : Server * list Event :=
  let s' :=
    set_collection s (filter (fun d => d_completed d = false) (collection s)) in
  (s', replace_all s').

Definition clearAll (s : Server) : Server * list Event :=
  (set_collection s [], [Broadcast (sync_replace []) false]).

(** [for (let i = 0; i < order.length; i++) findByIdAndUpdate(order[i], { position: i })],
    from index [i] on: the collection afterwards, and whether the loop
    came to its end ([false]: an id could not be cast). *)
Fixpoint reorder_from (w : World) (i : nat) (order : list string)
    (c : list Doc) : list Doc * bool :=
  match order with
  | [] => (c, true)
  | id :: rest =>
      match Mongo.findByIdAndUpdate w id (Mongo.set_position (Z.of_nat i)) c with
      | Some c' => reorder_from w (S i) rest c'
      | None => (c, false)
      end
  end.

Definition reorder (w : World) (s : Server) (order : list string)
  : Server * list Event :=
  let '(c, finished) := reorder_from w 0 order (collection s) in
  let s' := set_collection s c in
  (s', if finished then replace_all s' else []).

(** The document [insertMany] receives for the [i]-th item of
    [todo:restoreMany]; the properties it is not given take the schema
    defaults. *)
Definition restored (w : World) (i : nat) (t : Todo) : Doc :=
  {| d_id := new_oid w i;
     d_text := t_text t;
     d_completed := t_completed t;
     d_category := Some (js_or_lit (t_category t) "other");
     d_priority := Some (js_or_lit (t_priority t) "low");
     d_dueDate := None; d_dueTime := None;
     d_dependencies := []; d_locked := false;
     d_position := now w + Z.of_nat i;
     d_createdAt := now w |}.

(** [insertMany] validates every document before it inserts any. *)
Definition restoreMany (w : World) (s : Server) (items : list Todo)
  : Server * list Event :=
  if forallb (fun t => truthy (t_text t)) items then
    let s' := set_collection s (collection s ++ imap (restored w) items) in
    (s', replace_all s')
  else (s, []).

End Durable.

(** [handleMessage(ws, msg)] for a message with a known [type];
    [connected] is [mongoose.connection.readyState === 1]. *)
Definition handleMessage (connected : bool) (w : World) (s : Server)
    (msg : ClientMsg) : Server * list Event :=
  match msg with
  | sync_request => (s, [Send (sync_replace (getAllTodos connected s))])
  | todo_add todo =>
      if connected then Durable.add w s todo else Memory.add w s todo
  | todo_edit p =>
      match p_id p with
      | Some id =>
          if String.eqb id "" then (s, [])
          else if connected then Durable.edit w s id p else Memory.edit w s id p
      | None => (s, [])
      end
  | todo_remove oid =>
      match oid with
      | Some id =>
          if String.eqb id "" then (s, [])
          else if connected then Durable.remove w s id else Memory.remove s id
      | None => (s, [])
      end
  | todo_toggle oid =>
      match oid with
      | Some id =>
          if String.eqb id "" then (s, [])
          else if connected then Durable.toggle w s id else Memory.toggle s id
      | None => (s, [])
      end
  | todo_clearCompleted =>
      if connected then Durable.clearCompleted s else Memory.clearCompleted s
  | todo_clearAll =>
      if connected then Durable.clearAll s else Memory.clearAll s
  | todo_reorder order =>
      if connected then Durable.reorder w s order else Memory.reorder s order
  | todo_restoreMany items =>
      if connected then Durable.restoreMany w s items
      else Memory.restoreMany s items
  end.

(** A session: the handler run on a sequence of messages, each with the
    environment it is handled in; the events of all messages in order. *)
Fixpoint run (connected : bool) (s : Server) (msgs : list (World * ClientMsg))
  : Server * list Event :=
  match msgs with
  | [] => (s, [])
  | (w, msg) :: rest =>
      let '(s1, out1) := handleMessage connected w s msg in
      let '(s2, out2) := run connected s1 rest in
      (s2, out1 ++ out2)
  end.

Definition empty_server : Server := {| collection := []; inMemory := [] |}.

(** ** Reading stores and events *)

(** The task an id names in the store in use: the document with that
    [_id], or the first element of [inMemory] with that [id], which is
    the one [find] and [findIndex] reach. *)
Definition lookup_task (connected : bool) (s : Server) (id : string)
  : option Todo :=
  if connected then Mongo.toObject <$> Mongo.by_id id (collection s)
  else find_todo id (inMemory s).

(** The tasks of the store in use, in stored order. *)
Definition tasks (connected : bool) (s : Server) : list Todo :=
  if connected then map Mongo.toObject (collection s) else inMemory s.

(** The task carried by the first [sync:update] of a list of events. *)
Fixpoint updated_task (out : list Event) : option Todo :=
  match out with
  | [] => None
  | Send (sync_update t) :: _ => Some t
  | Broadcast (sync_update t) _ :: _ => Some t
  | _ :: rest => updated_task rest
  end.

(** The instant a due date and time denote, when there is a due date and
    the date parser accepts it. *)
Definition due_instant (w : World) (dueDate dueTime : option string)
  : option Z :=
  match dueDate with
  | Some dd =>
      if String.eqb dd "" then None
      else date_parse w (dd +:+ time_suffix dueTime)
  | None => None
  end.







(** ** Sample environments and payloads *)

Definition hex_digit (n : N) : ascii :=
  if (n <? 10)%N then ascii_of_N (48 + n) else ascii_of_N (87 + n).

(** The last [digits] hexadecimal digits of [n]. *)
Fixpoint hex_of (digits : nat) (n : N) : string :=
  match digits with
  | O => ""
  | S k => hex_of k (n / 16)%N +:+ String (hex_digit (n mod 16)%N) ""
  end.

(** An [_id] made of the clock and the insertion index. *)
Definition sample_oid (n : Z) (i : nat) : string :=
  hex_of 16 (Z.to_N n) +:+ hex_of 8 (N.of_nat i).

Definition is_hex (a : ascii) : bool :=
  let n := N_of_ascii a in
  ((48 <=? n) && (n <=? 57) || (97 <=? n) && (n <=? 102)
   || (65 <=? n) && (n <=? 70))%N.

Definition lower_hex (a : ascii) : ascii :=
  let n := N_of_ascii a in
  if ((65 <=? n) && (n <=? 70))%N then ascii_of_N (n + 32) else a.

Fixpoint string_map (f : ascii -> ascii) (s : string) : string :=
  match s with
  | EmptyString => EmptyString
  | String a r => String (f a) (string_map f r)
  end.

(** The cast of a string of 24 hexadecimal digits, and of no other
    string. *)
Definition hex24 (s : string) : option string :=
  if Nat.eqb (String.length s) 24 && forallb is_hex (list_ascii_of_string s)
  then Some (string_map lower_hex s)
  else None.

(** An environment with the clock at [n], a date parser that accepts
    nothing, object ids made of the clock and the insertion index, and
    the cast of 24 hexadecimal digits. *)
Definition world_at (n : Z) : World :=
  {| now := n;
     date_parse := fun _ => None;
     new_oid := sample_oid n;
     cast_oid := hex24 |}.

(** A well-formed id that names no stored task. *)
Definition absent_id : string := "64b7f3a2c9e1d2a3b4c5d6e7".

(** A payload with a text and, possibly, dependencies. *)
Definition task_payload (text : string) (deps : option (list string))
  : Payload :=
  {| p_id := None; p_text := Value text; p_completed := false;
     p_category := Undefined; p_priority := Undefined; p_dueDate := Undefined;
     p_dueTime := Undefined; p_dependencies := deps |}.

(** The list carried by the last [sync:replace] of a list of events. *)
Fixpoint replaced_list (out : list Event) : option (list Todo) :=
  match out with
  | [] => None
  | e :: rest =>
      match replaced_list rest with
      | Some l => Some l
      | None =>
          match e with
          | Send (sync_replace l) => Some l
          | Broadcast (sync_replace l) _ => Some l
          | _ => None
          end
      end
  end.

(** A list of documents is in the order of
    [sort({ position: 1, createdAt: -1 })]. *)
Definition by_position (l : list Doc) : Prop :=
  forall i j a b, (i < j)%nat -> l !! i = Some a -> l !! j = Some b ->
    d_position a < d_position b \/
    (d_position a = d_position b /\ d_createdAt b <= d_createdAt a).

(** A snapshot of a removed task, as a client sends it back in
    [todo:restoreMany]. *)
Definition sample_snapshot : Todo :=
  {| t_id := Some "old1"; t_text := Some "x"; t_completed := false;
     t_category := Some "work"; t_priority := Some "high"; t_position := 0;
     t_dueDate := None; t_dueTime := None;
     t_dependencies := Some [sample_oid 1 0]; t_locked := true |}.


(** The session used to show a stale lock: [b] depends on [a]; [a] is
    completed, which unlocks [b], and then reopened. *)
Definition first_id (connected : bool) : string :=
  if connected then sample_oid 1 0 else "m_1".

Definition second_id (connected : bool) : string :=
  if connected then sample_oid 2 0 else "m_2".

Definition reopen_session (connected : bool) : list (World * ClientMsg) :=
  let a := first_id connected in
  [(world_at 1, todo_add (task_payload "a" None));
   (world_at 2, todo_add (task_payload "b" (Some [a])));
   (world_at 3, todo_toggle (Some a));
   (world_at 4, todo_toggle (Some a))].

(** A payload that supplies a text and nothing else. *)
Definition rename_payload (id text : string) : Payload :=
  {| p_id := Some id; p_text := Value text; p_completed := false;
     p_category := Undefined; p_priority := Undefined; p_dueDate := Undefined;
     p_dueTime := Undefined; p_dependencies := None |}.





(** The session of claim C4: [b] depends on [a] and on an id that names
    no task; then [a] is completed. *)
Definition dangling_session (connected : bool) : list (World * ClientMsg) :=
  let a := first_id connected in
  [(world_at 1, todo_add (task_payload "a" None));
   (world_at 2, todo_add (task_payload "b" (Some [a; absent_id])))].

(** ** The unlock pass of [todo:toggle], element by element *)

(** The update and the reminder sent for a task that gets unlocked. *)
Definition unlock_pair (t : Todo) : list Event :=
  [Broadcast (sync_update (Memory.set_locked false t)) false;
   Broadcast (todo_reminder (t_id t) reminder_text) false].

(** The condition under which the pass over [m], after the task [tid]
    was completed, unlocks [other]. *)
Definition unlocks (m : list Todo) (tid : string) (other : Todo) : bool :=
  match t_dependencies other with
  | None => false
  | Some deps =>
      bool_decide (tid ∈ deps) && (negb (existsb (blocks m) deps) && t_locked other)
  end.

Definition unlock_one (m : list Todo) (tid : string) (other : Todo) : Todo :=
  if unlocks m tid other then Memory.set_locked false other else other.

Definition unlock_events (m : list Todo) (tid : string) (other : Todo)
  : list Event :=
  if unlocks m tid other then unlock_pair other else [].

(** ** The rest of [index.js] *)

(** *** [replaceAllTodos] *)

(** [t.id || ('m_' + Date.now() + '_' + i)]: an empty id counts as none. *)
Definition replaced_id (w : World) (i : nat) (t : Todo) : string :=
  js_or_lit (t_id t) ("m_" +:+ pretty (now w) +:+ "_" +:+ pretty i).

(** The element [replaceAllTodos] builds in memory for the [i]-th item. *)
Definition replaced_todo (w : World) (i : nat) (t : Todo) : Todo :=
  {| t_id := Some (replaced_id w i t); t_text := t_text t;
     t_completed := t_completed t;
     t_category := Some (js_or_lit (t_category t) "other");
     t_priority := Some (js_or_lit (t_priority t) "low");
     t_position := Z.of_nat i;
     t_dueDate := or_null (t_dueDate t); t_dueTime := or_null (t_dueTime t);
     t_dependencies := Some (default [] (t_dependencies t));
     t_locked := t_locked t |}.

(** The document [replaceAllTodos] hands to [insertMany] for the [i]-th
    item. *)
Definition replaced_doc (w : World) (i : nat) (t : Todo) : Doc :=
  {| d_id := new_oid w i;
     d_text := t_text t;
     d_completed := t_completed t;
     d_category := Some (js_or_lit (t_category t) "other");
     d_priority := Some (js_or_lit (t_priority t) "low");
     d_dueDate := or_null (t_dueDate t); d_dueTime := or_null (t_dueTime t);
     d_dependencies := default [] (t_dependencies t);
     d_locked := t_locked t;
     d_position := Z.of_nat i;
     d_createdAt := now w |}.

(** [replaceAllTodos(todos)]: the new state and the list returned, [None]
    when the promise is rejected.  On the collection [deleteMany] has run
    when [insertMany] validates the documents. *)
Definition replaceAllTodos (connected : bool) (w : World) (s : Server)
    (todos : list Todo) : Server * option (list Todo) :=
  if connected then
    if forallb (fun t => truthy (t_text t)) todos then
      let docs := imap (replaced_doc w) todos in
      (set_collection s docs, Some (map Mongo.toObject docs))
    else (set_collection s [], None)
  else
    let m := imap (replaced_todo w) todos in
    (set_inMemory s m, Some m).

(** *** The REST endpoints *)

Inductive Response :=
| res_todos (todos : list Todo)
| res_todo (todo : Todo)
| res_error (status : Z) (error : string).

(** [app.get('/api/todos')] *)
Definition get_todos (connected : bool) (s : Server) : Response :=
  res_todos (getAllTodos connected s).

(** [const { text, category = 'other', priority = 'low', ... } = req.body]:
    a default stands in for a missing property only, [null] stays. *)
Definition body_default (v : Field string) (d : string) : option string :=
  match v with
  | Undefined => Some d
  | Null => None
  | Value a => Some a
  end.

(** [app.post('/api/todos')]: the body is read as a payload; the task is
    stored without dependencies and nothing is broadcast. *)
Definition post_todo (connected : bool) (w : World) (s : Server)
    (body : Payload) : Server * Response :=
  if truthy (p_text body) then
    let category := body_default (p_category body) "other" in
    let priority := body_default (p_priority body) "low" in
    if connected then
      let pos := Durable.next_position (collection s) in
      let doc :=
        {| d_id := new_oid w 0; d_text := p_text body; d_completed := false;
           d_category := category; d_priority := priority;
           d_dueDate := or_null (p_dueDate body);
           d_dueTime := or_null (p_dueTime body);
           d_dependencies := []; d_locked := false;
           d_position := pos; d_createdAt := now w |} in
      (set_collection s (collection s ++ [doc]),
       res_todo
         {| t_id := Some (d_id doc); t_text := d_text doc; t_completed := false;
            t_category := d_category doc; t_priority := d_priority doc;
            t_position := pos;
            t_dueDate := or_null (d_dueDate doc);
            t_dueTime := or_null (d_dueTime doc);
            t_dependencies := None; t_locked := false |})
    else
      let obj :=
        {| t_id := Some ("m_" +:+ pretty (now w)); t_text := p_text body;
           t_completed := false;
           t_category := category; t_priority := priority;
           t_position := Z.of_nat (length (inMemory s));
           t_dueDate := or_null (p_dueDate body);
           t_dueTime := or_null (p_dueTime body);
           t_dependencies := None; t_locked := false |} in
      (set_inMemory s (obj :: inMemory s), res_todo obj)
  else (s, res_error 400 "text required").

(** *** Messages as they arrive *)

(** A parsed message: [{ type, payload }], the payload with the
    properties any handler reads. *)
Record RawMsg := mkRawMsg {
  m_type : option string;
  m_fields : option Payload;
  m_order : option (list string);
  m_items : option (list Todo)
}.

(** [payload || {}] *)
Definition no_fields : Payload :=
  {| p_id := None; p_text := Undefined; p_completed := false;
     p_category := Undefined; p_priority := Undefined;
     p_dueDate := Undefined; p_dueTime := Undefined;
     p_dependencies := None |}.

(** The chain of [if (type === ...)] of [handleMessage]: the handler a
    message reaches, if any. *)
Definition decode (raw : RawMsg) : option ClientMsg :=
  let fields := default no_fields (m_fields raw) in
  match m_type raw with
  | None => None
  | Some type =>
      if String.eqb type "sync:request" then Some sync_request
      else if String.eqb type "todo:add" then Some (todo_add fields)
      else if String.eqb type "todo:edit" then Some (todo_edit fields)
      else if String.eqb type "todo:remove" then Some (todo_remove (p_id fields))
      else if String.eqb type "todo:toggle" then Some (todo_toggle (p_id fields))
      else if String.eqb type "todo:clearCompleted" then Some todo_clearCompleted
      else if String.eqb type "todo:clearAll" then Some todo_clearAll
      else if String.eqb type "todo:removeAll" then Some todo_clearAll
      else if String.eqb type "todo:reorder" then todo_reorder <$> m_order raw
      else if String.eqb type "todo:restoreMany" then todo_restoreMany <$> m_items raw
      else None
  end.

(** [ws.on('message', ...)] after [JSON.parse]. *)
Definition incoming (connected : bool) (w : World) (s : Server) (raw : RawMsg)
  : Server * list Event :=
  match decode raw with
  | Some msg => handleMessage connected w s msg
  | None => (s, [])
  end.

(** *** [broadcast] *)

(** A session of [wss.clients]: who it is and whether its socket is open. *)
Record Client := mkClient {
  c_id : nat;
  c_open : bool
}.

(** [broadcast(message, except)]: what is sent, and to whom. *)
Definition broadcast (clients : list Client) (message : ServerMsg)
    (except : option nat) : list (nat * ServerMsg) :=
  map (fun c => (c_id c, message))
    (List.filter
       (fun c => c_open c && negb (bool_decide (Some (c_id c) = except)))
       clients).

(** The messages sent for the events of a handler run for the session
    [ws]. *)
Definition fanout (clients : list Client) (ws : nat) (out : list Event)
  : list (nat * ServerMsg) :=
  flat_map
    (fun e =>
       match e with
       | Send m => [(ws, m)]
       | Broadcast m true => broadcast clients m (Some ws)
       | Broadcast m false => broadcast clients m None
       end) out.

(** What one session receives, in order. *)
Definition received (c : nat) (sent : list (nat * ServerMsg)) : list ServerMsg :=
  map snd (List.filter (fun x => Nat.eqb (fst x) c) sent).

(** The messages of the broadcasts among the events, in order. *)
Definition broadcasts (out : list Event) : list ServerMsg :=
  flat_map (fun e => match e with Broadcast m _ => [m] | Send _ => [] end) out.

(** ** Relations between a task before and after a message *)

(** [todo:toggle] of [id]: nothing but [completed] of the toggled task
    and [locked] changes, and [locked] is only ever cleared. *)
Definition toggled (id : string) (t t' : Todo) : Prop :=
  t_id t' = t_id t /\ t_text t' = t_text t /\ t_category t' = t_category t /\
  t_priority t' = t_priority t /\ t_position t' = t_position t /\
  t_dueDate t' = t_dueDate t /\ t_dueTime t' = t_dueTime t /\
  t_dependencies t' = t_dependencies t /\
  (t_id t <> Some id -> t_completed t' = t_completed t) /\
  (t_locked t' = true -> t_locked t = true).

(** [todo:reorder] on the collection: only [position] changes. *)
Definition repositioned (d d' : Doc) : Prop :=
  Mongo.set_position (d_position d) d' = d.

(** The ids MongoDB hands out while [msg] is handled are new and distinct. *)
Definition fresh_oids (w : World) (s : Server) (msg : ClientMsg) : Prop :=
  match msg with
  | todo_add _ => new_oid w 0 ∉ map d_id (collection s)
  | todo_restoreMany items =>
      NoDup (map (new_oid w) (seq 0 (length items))) /\
      forall i, (i < length items)%nat -> new_oid w i ∉ map d_id (collection s)
  | _ => True
  end.

(** A document as the handler writes it: a non-empty priority, and a due
    date and time that are [null] or non-empty. *)
Definition well_kept (d : Doc) : Prop :=
  truthy (d_priority d) = true /\ d_dueDate d <> Some "" /\ d_dueTime d <> Some "".

(** The [type]s [handleMessage] knows. *)
Definition message_types : list string :=
  ["sync:request"; "todo:add"; "todo:edit"; "todo:remove"; "todo:toggle";
   "todo:clearCompleted"; "todo:clearAll"; "todo:removeAll"; "todo:reorder";
   "todo:restoreMany"].

(** A task as [getAllTodos] shows it on the collection when the object
    at hand has no [dependencies] property. *)
Definition with_no_dependencies (t : Todo) : Todo :=
  {| t_id := t_id t; t_text := t_text t; t_completed := t_completed t;
     t_category := t_category t; t_priority := t_priority t;
     t_position := t_position t; t_dueDate := t_dueDate t;
     t_dueTime := t_dueTime t; t_dependencies := Some [];
     t_locked := t_locked t |}.

(** What makes [map[id]] of [todo:reorder] give a value that is not a
    task although no task is stored under [id]: the name is a member of
    [Object.prototype], or [__proto__] itself, or a task became the
    prototype of [map]. *)
Definition inherits (m : list Todo) (id : string) : Prop :=
  id ∈ Memory.object_prototype \/ id = "__proto__" \/
  exists t, t ∈ m /\ t_id t = Some "__proto__".

(** * Properties *)

(** ** Lookups *)

Lemma truthy_Some (s : string) : truthy (Some s) = true <-> s <> "".
Proof.
  unfold truthy. destruct (String.eqb_spec s ""); simpl; split; congruence.
Qed.

Lemma js_or_lit_truthy (a : option string) (lit : string) :
  truthy a = true -> Some (js_or_lit a lit) = a.
Proof.
  destruct a as [v|]; simpl; [|discriminate].
  destruct (String.eqb v ""); simpl; [discriminate|reflexivity].
Qed.


Lemma findIndex_Some (id : string) (m : list Todo) (i : nat) (t : Todo) :
  findIndex id m = Some (i, t) ->
  m !! i = Some t /\ t_id t = Some id /\
  forall j u, m !! j = Some u -> (j < i)%nat -> t_id u <> Some id.
Proof. unfold findIndex. intros H. by apply list_find_Some in H. Qed.



Lemma find_todo_None (id : string) (m : list Todo) :
  find_todo id m = None <-> forall t, t ∈ m -> t_id t <> Some id.
Proof.
  unfold find_todo, findIndex. rewrite fmap_None, list_find_None, Forall_forall.
  reflexivity.
Qed.

Lemma by_id_Some (id : string) (c : list Doc) (d : Doc) :
  Mongo.by_id id c = Some d -> d ∈ c /\ d_id d = id.
Proof.
  unfold Mongo.by_id. intros H. apply find_some in H as [Hin Heq].
  split; [by apply list_elem_of_In|by apply String.eqb_eq].
Qed.

Lemma by_id_None (id : string) (c : list Doc) :
  Mongo.by_id id c = None <-> forall d, d ∈ c -> d_id d <> id.
Proof.
  unfold Mongo.by_id. split.
  - intros H d Hin Heq.
    pose proof (find_none _ _ H d (proj1 (list_elem_of_In _ _) Hin)) as Hf.
    simpl in Hf. apply String.eqb_neq in Hf. contradiction.
  - intros H. destruct (List.find _ c) as [d|] eqn:E; [|reflexivity].
    apply find_some in E as [Hin Heq]. apply String.eqb_eq in Heq.
    exfalso. eapply H; [by apply list_elem_of_In|exact Heq].
Qed.

(** The queries by id, for an id that can be cast. *)
Lemma findById_cast (w : World) (id oid : string) (c : list Doc) :
  cast_oid w id = Some oid -> Mongo.findById w id c = Some (Mongo.by_id oid c).
Proof. unfold Mongo.findById. by intros ->. Qed.

Lemma findByIdAndUpdate_cast (w : World) (id oid : string) (f : Doc -> Doc)
    (c : list Doc) :
  cast_oid w id = Some oid ->
  Mongo.findByIdAndUpdate w id f c = Some (Mongo.update_by_id oid f c).
Proof. unfold Mongo.findByIdAndUpdate. by intros ->. Qed.

Lemma findByIdAndDelete_cast (w : World) (id oid : string) (c : list Doc) :
  cast_oid w id = Some oid ->
  Mongo.findByIdAndDelete w id c = Some (Mongo.delete_by_id oid c).
Proof. unfold Mongo.findByIdAndDelete. by intros ->. Qed.

(** ** The lock rule *)

Lemma forallb_completed_false (l : list Doc) :
  forallb d_completed l = false <-> exists d, d ∈ l /\ d_completed d = false.
Proof.
  induction l as [|x r IH]; simpl.
  - split; [discriminate|]. intros (d & Hd & _). by apply elem_of_nil in Hd.
  - rewrite andb_false_iff, IH. split.
    + intros [H|(d & Hd & Hc)].
      * exists x. split; [apply list_elem_of_here|exact H].
      * exists d. split; [by apply list_elem_of_further|exact Hc].
    + intros (d & Hd & Hc). apply elem_of_cons in Hd as [->|Hd]; [by left|].
      right. by exists d.
Qed.

(** On the collection, with dependencies that can be cast, a task is
    locked exactly when one of the documents its dependencies name is not
    completed. *)
Lemma computeLockedFor_durable (w : World) (s : Server) (id : option string)
    (deps oids : list string) :
  Mongo.cast_all w deps = Some oids ->
  exists b, computeLockedFor true w s id deps = Some b /\
    (b = true <->
     exists d, d ∈ collection s /\ d_id d ∈ oids /\ d_completed d = false).
Proof.
  intros Hcast. unfold computeLockedFor, Mongo.find_in. rewrite Hcast.
  destruct deps as [|dep deps].
  - injection Hcast as <-. exists false. split; [reflexivity|].
    split; [discriminate|]. intros (d & _ & Hd & _). by apply elem_of_nil in Hd.
  - eexists. split; [reflexivity|].
    rewrite negb_true_iff, forallb_completed_false. split.
    + intros (d & Hd & Hc). apply list_elem_of_filter in Hd as [Hd Hin].
      by exists d.
    + intros (d & Hin & Hd & Hc). exists d. split; [|exact Hc].
      by apply list_elem_of_filter.
Qed.

(** A dependency that cannot be cast makes the query reject. *)
Lemma computeLockedFor_rejects (w : World) (s : Server) (id : option string)
    (deps : list string) :
  Mongo.cast_all w deps = None -> computeLockedFor true w s id deps = None.
Proof.
  intros Hcast. unfold computeLockedFor, Mongo.find_in. rewrite Hcast.
  destruct deps; [discriminate|reflexivity].
Qed.


(** In memory the computation always answers. *)
Lemma computeLockedFor_false (w : World) (s : Server) (id : option string)
    (deps : list string) :
  computeLockedFor false w s id deps = Some (existsb (blocks (inMemory s)) deps).
Proof. unfold computeLockedFor. by destruct deps. Qed.

Lemma existsb_blocks (m : list Todo) (deps : list string) :
  existsb (blocks m) deps = true <->
  exists dep, dep ∈ deps /\
    (find_todo dep m = None \/
     exists t, find_todo dep m = Some t /\ t_completed t = false).
Proof.
  rewrite existsb_exists. split.
  - intros (dep & Hin & Hb). exists dep. split; [by apply list_elem_of_In|].
    unfold blocks in Hb. destruct (find_todo dep m) as [t|]; [|by left].
    right. exists t. by rewrite negb_true_iff in Hb.
  - intros (dep & Hin & Hb). exists dep. split; [by apply list_elem_of_In|].
    unfold blocks. destruct Hb as [->|(t & -> & Hc)]; [reflexivity|].
    by rewrite Hc.
Qed.

(** In memory, a dependency that names no task locks as well. *)
Lemma computeLockedFor_memory (w : World) (s : Server) (id : option string)
    (deps : list string) :
  computeLockedFor false w s id deps = Some true <->
  exists dep, dep ∈ deps /\
    (find_todo dep (inMemory s) = None \/
     exists t, find_todo dep (inMemory s) = Some t /\ t_completed t = false).
Proof.
  rewrite computeLockedFor_false, <- existsb_blocks. split; congruence.
Qed.

Lemma computeLockedFor_nil (connected : bool) (w : World) (s : Server)
    (id : option string) :
  computeLockedFor connected w s id [] = Some false.
Proof. reflexivity. Qed.

(** C1: on the in-memory store a dependency that names no task forces
    the lock, where the claim (and the collection branch of the same
    function) treats it as satisfied: with no task stored at all,
    [computeLockedFor] answers [true] in memory and [false] on the
    collection for a single dependency on an absent id. *)
Theorem C1_missing_dependency_locks_in_memory :
  computeLockedFor false (world_at 0) empty_server None [absent_id] = Some true /\
  computeLockedFor true (world_at 0) empty_server None [absent_id] = Some false /\
  ~ (exists t, t ∈ inMemory empty_server /\ t_id t ∈ [Some absent_id] /\
               t_completed t = false).
Proof.
  split; [reflexivity|]. split; [reflexivity|].
  intros (t & Hin & _). simpl in Hin. by apply elem_of_nil in Hin.
Qed.

(** ** Priority by due date *)

Lemma computePriorityByDue_due_instant (w : World) (dueDate dueTime : option string) :
  computePriorityByDue w dueDate dueTime =
  match due_instant w dueDate dueTime with
  | Some target =>
      if target - now w <=? day then Some "high"
      else if target - now w <=? 3 * day then Some "medium"
      else None
  | None => None
  end.
Proof.
  unfold computePriorityByDue, due_instant.
  destruct dueDate as [dd|]; [|reflexivity].
  destruct (String.eqb dd ""); [reflexivity|].
  destruct (date_parse w _) as [target|]; [|reflexivity].
  unfold day.
  destruct (Z.leb_spec (target - now w) 0);
    destruct (Z.leb_spec (target - now w) (24 * 60 * 60 * 1000));
    try reflexivity; lia.
Qed.


Lemma updated_task_confirm (tempId : option string) (realId : string)
    (out : list Event) :
  updated_task (confirm tempId realId ++ out) = updated_task out.
Proof.
  unfold confirm. destruct tempId as [tid|]; [|reflexivity].
  destruct (String.eqb tid ""); reflexivity.
Qed.





(** ** Updates of the collection *)

Lemma by_id_update_same (id : string) (f : Doc -> Doc) (c : list Doc) :
  (forall d, d_id (f d) = d_id d) ->
  Mongo.by_id id (Mongo.update_by_id id f c) = f <$> Mongo.by_id id c.
Proof.
  intros Hf. unfold Mongo.by_id. induction c as [|d r IH]; [reflexivity|].
  simpl. destruct (String.eqb (d_id d) id) eqn:E; simpl.
  - by rewrite Hf, E.
  - by rewrite E.
Qed.

Lemma by_id_update_other (id id' : string) (f : Doc -> Doc) (c : list Doc) :
  (forall d, d_id (f d) = d_id d) -> id' <> id ->
  Mongo.by_id id' (Mongo.update_by_id id f c) = Mongo.by_id id' c.
Proof.
  intros Hf Hne. unfold Mongo.by_id. induction c as [|d r IH]; [reflexivity|].
  simpl. destruct (String.eqb_spec (d_id d) id) as [E|E]; simpl.
  - rewrite Hf. destruct (String.eqb_spec (d_id d) id'); [congruence|reflexivity].
  - by rewrite IH.
Qed.

Lemma update_ids (id : string) (f : Doc -> Doc) (c : list Doc) :
  (forall d, d_id (f d) = d_id d) ->
  map d_id (Mongo.update_by_id id f c) = map d_id c.
Proof.
  intros Hf. induction c as [|d r IH]; [reflexivity|].
  simpl. destruct (String.eqb (d_id d) id); simpl; [by rewrite Hf|by rewrite IH].
Qed.

Lemma update_keeps_other (id : string) (f : Doc -> Doc) (c : list Doc) (d : Doc) :
  d ∈ c -> d_id d <> id -> d ∈ Mongo.update_by_id id f c.
Proof.
  intros Hin Hne. induction c as [|x r IH]; [by apply elem_of_nil in Hin|].
  simpl. apply elem_of_cons in Hin as [->|Hin].
  - destruct (String.eqb_spec (d_id x) id); [contradiction|]. apply elem_of_cons. by left.
  - destruct (String.eqb (d_id x) id); apply elem_of_cons; right; auto.
Qed.

Lemma update_elem (id : string) (f : Doc -> Doc) (c : list Doc) (d' : Doc) :
  d' ∈ Mongo.update_by_id id f c ->
  d' ∈ c \/ exists d, d ∈ c /\ d_id d = id /\ d' = f d.
Proof.
  induction c as [|x r IH]; simpl; [by left|].
  destruct (String.eqb_spec (d_id x) id) as [E|E]; intros Hin;
    apply elem_of_cons in Hin as [->|Hin].
  - right. exists x. split; [apply elem_of_cons; by left|done].
  - left. apply elem_of_cons. by right.
  - left. apply elem_of_cons. by left.
  - destruct (IH Hin) as [H|(d & Hd & Hid & ->)].
    + left. apply elem_of_cons. by right.
    + right. exists d. split; [apply elem_of_cons; by right|done].
Qed.

Lemma update_absent (id : string) (f : Doc -> Doc) (c : list Doc) :
  Mongo.by_id id c = None -> Mongo.update_by_id id f c = c.
Proof.
  unfold Mongo.by_id. induction c as [|d r IH]; [reflexivity|].
  simpl. destruct (String.eqb (d_id d) id); [discriminate|].
  intros H. by rewrite IH.
Qed.

Lemma delete_absent (id : string) (c : list Doc) :
  Mongo.by_id id c = None -> Mongo.delete_by_id id c = c.
Proof.
  unfold Mongo.by_id. induction c as [|d r IH]; [reflexivity|].
  simpl. destruct (String.eqb (d_id d) id); [discriminate|].
  intros H. by rewrite IH.
Qed.

Lemma set_collection_same (s : Server) : set_collection s (collection s) = s.
Proof. by destruct s. Qed.

Lemma set_inMemory_same (s : Server) : set_inMemory s (inMemory s) = s.
Proof. by destruct s. Qed.

(** The loop of [todo:reorder] on the collection changes no [_id]. *)
Lemma reorder_from_ids (w : World) (i : nat) (order : list string) (c : list Doc) :
  map d_id (Durable.reorder_from w i order c).1 = map d_id c.
Proof.
  revert i c. induction order as [|id rest IH]; intros i c; [reflexivity|].
  simpl. unfold Mongo.findByIdAndUpdate.
  destruct (cast_oid w id) as [oid|]; [|reflexivity].
  rewrite IH. by apply update_ids.
Qed.

(** A document that no id of [order] denotes stays as it is. *)
Lemma reorder_from_keeps_other (w : World) (i : nat) (order : list string)
    (c : list Doc) (d : Doc) :
  d ∈ c -> (forall id, id ∈ order -> cast_oid w id <> Some (d_id d)) ->
  d ∈ (Durable.reorder_from w i order c).1.
Proof.
  revert i c. induction order as [|id rest IH]; intros i c Hin Hno; [exact Hin|].
  simpl. unfold Mongo.findByIdAndUpdate.
  destruct (cast_oid w id) as [oid|] eqn:E; [|exact Hin].
  apply IH.
  - apply update_keeps_other; [exact Hin|]. intros Heq.
    apply (Hno id); [apply list_elem_of_here|]. by rewrite E, Heq.
  - intros id' Hid'. apply Hno. by apply list_elem_of_further.
Qed.

(** ** Adding a task *)



(** ** Replacing a task in place *)

(** [inMemory[idx] = x'], for [x'] with the id of the element it replaces:
    a search by id finds the same index, and [x'] there. *)
Lemma findIndex_insert (m : list Todo) (idx : nat) (x x' : Todo) (id : string) :
  m !! idx = Some x -> t_id x' = t_id x ->
  findIndex id (<[idx := x']> m) =
  (fun it : nat * Todo => (it.1, if decide (it.1 = idx) then x' else it.2))
    <$> findIndex id m.
Proof.
  unfold findIndex. revert idx.
  induction m as [|y r IH]; intros idx Hidx Hid; [by rewrite lookup_nil in Hidx|].
  destruct idx as [|k]; simpl in *.
  - injection Hidx as ->. rewrite Hid.
    destruct (decide (t_id x = Some id)); [reflexivity|].
    destruct (list_find _ r) as [[i t]|]; reflexivity.
  - destruct (decide (t_id y = Some id)); [reflexivity|].
    rewrite (IH k Hidx Hid).
    destruct (list_find _ r) as [[i t]|]; simpl; [|reflexivity].
    destruct (decide (i = k)), (decide (S i = S k)); try reflexivity; lia.
Qed.



Lemma blocks_insert (m : list Todo) (idx : nat) (x x' : Todo) (dep : string) :
  m !! idx = Some x -> t_id x' = t_id x -> t_completed x' = t_completed x ->
  blocks (<[idx := x']> m) dep = blocks m dep.
Proof.
  intros Hidx Hid Hc. unfold blocks, find_todo.
  rewrite (findIndex_insert m idx x x' dep Hidx Hid).
  destruct (findIndex dep m) as [[i t]|] eqn:E; simpl; [|reflexivity].
  destruct (decide (i = idx)) as [->|]; [|reflexivity].
  apply findIndex_Some in E as (Hi & _ & _). congruence.
Qed.

Lemma existsb_pointwise {A} (f g : A -> bool) (l : list A) :
  (forall a, f a = g a) -> existsb f l = existsb g l.
Proof. intros H. induction l as [|a r IH]; simpl; [reflexivity|]. by rewrite H, IH. Qed.



(** ** Edit *)









(** ** The index of [todo:reorder] in memory *)

Lemma assign_own (map : Memory.Index) (x : Todo) (k : string) :
  Memory.own (Memory.assign map x) !! k =
  if decide (Memory.key_of x = k /\ k <> "__proto__") then Some x
  else Memory.own map !! k.
Proof.
  unfold Memory.assign.
  destruct (String.eqb_spec (Memory.key_of x) "__proto__") as [E|E]; simpl.
  - destruct (decide _) as [[H1 H2]|]; [congruence|reflexivity].
  - destruct (decide _) as [[H1 H2]|Hn].
    + by rewrite H1, lookup_insert_eq.
    + destruct (decide (Memory.key_of x = k)) as [Hk|Hk].
      * exfalso. apply Hn. split; [exact Hk|congruence].
      * by rewrite lookup_insert_ne.
Qed.

Lemma assign_proto (map : Memory.Index) (x : Todo) :
  Memory.proto (Memory.assign map x) =
  if decide (Memory.key_of x = "__proto__") then Some x else Memory.proto map.
Proof.
  unfold Memory.assign.
  destruct (String.eqb_spec (Memory.key_of x) "__proto__") as [E|E]; simpl.
  - by rewrite decide_True.
  - by rewrite decide_False.
Qed.

Lemma index_fold_own (m : list Todo) (acc : Memory.Index) (k : string) (t : Todo) :
  Memory.own (foldl Memory.assign acc m) !! k = Some t ->
  (t ∈ m /\ Memory.key_of t = k) \/ Memory.own acc !! k = Some t.
Proof.
  revert acc. induction m as [|x r IH]; intros acc; simpl; [by right|].
  intros H. apply IH in H as [[Hin Hid]|H].
  - left. split; [by apply list_elem_of_further|exact Hid].
  - rewrite assign_own in H. destruct (decide _) as [[Hk _]|_].
    + injection H as <-. left. split; [apply list_elem_of_here|exact Hk].
    + by right.
Qed.

Lemma index_fold_proto (m : list Todo) (acc : Memory.Index) (t : Todo) :
  Memory.proto (foldl Memory.assign acc m) = Some t ->
  (t ∈ m /\ Memory.key_of t = "__proto__") \/ Memory.proto acc = Some t.
Proof.
  revert acc. induction m as [|x r IH]; intros acc; simpl; [by right|].
  intros H. apply IH in H as [[Hin Hid]|H].
  - left. split; [by apply list_elem_of_further|exact Hid].
  - rewrite assign_proto in H. destruct (decide _) as [Hk|_].
    + injection H as <-. left. split; [apply list_elem_of_here|exact Hk].
    + by right.
Qed.

Lemma index_fold_own_other (m : list Todo) (acc : Memory.Index) (k : string) :
  (forall y, y ∈ m -> Memory.key_of y <> k) ->
  Memory.own (foldl Memory.assign acc m) !! k = Memory.own acc !! k.
Proof.
  revert acc. induction m as [|x r IH]; intros acc Hno; [reflexivity|].
  simpl. rewrite IH by (intros y Hy; by apply Hno, list_elem_of_further).
  rewrite assign_own, decide_False; [reflexivity|].
  intros [Hk _]. by apply (Hno x (list_elem_of_here _ _)).
Qed.

Lemma index_fold_proto_other (m : list Todo) (acc : Memory.Index) :
  (forall y, y ∈ m -> Memory.key_of y <> "__proto__") ->
  Memory.proto (foldl Memory.assign acc m) = Memory.proto acc.
Proof.
  revert acc. induction m as [|x r IH]; intros acc Hno; [reflexivity|].
  simpl. rewrite IH by (intros y Hy; by apply Hno, list_elem_of_further).
  rewrite assign_proto, decide_False; [reflexivity|].
  by apply (Hno x (list_elem_of_here _ _)).
Qed.

Lemma key_of_proto (t : Todo) :
  Memory.key_of t = "__proto__" <-> t_id t = Some "__proto__".
Proof.
  unfold Memory.key_of. destruct (t_id t) as [i|]; simpl; split; congruence.
Qed.

(** A task that [map[id]] gives is a stored task, stored under [id]. *)
Lemma get_task_elem (m : list Todo) (id : string) (t : Todo) :
  Memory.get (Memory.index_by_id m) id = Memory.got_task t ->
  t ∈ m /\ Memory.key_of t = id.
Proof.
  unfold Memory.get, Memory.index_by_id.
  destruct (String.eqb_spec id "__proto__") as [->|Hne].
  - destruct (Memory.proto _) as [u|] eqn:E; [|discriminate]. intros [= ->].
    apply index_fold_proto in E as [H|H]; [exact H|discriminate].
  - destruct (Memory.own _ !! id) as [u|] eqn:E.
    + intros [= ->]. apply index_fold_own in E as [H|H]; [exact H|].
      simpl in H. by rewrite lookup_empty in H.
    + destruct (match Memory.proto _ with Some _ => _ | None => _ end);
        [discriminate|].
      destruct (bool_decide _); discriminate.
Qed.

(** A value that is not a task is an inherited one. *)
Lemma get_other_inherits (m : list Todo) (id : string) :
  Memory.get (Memory.index_by_id m) id = Memory.got_other -> inherits m id.
Proof.
  unfold Memory.get, Memory.index_by_id, inherits.
  destruct (String.eqb_spec id "__proto__") as [->|Hne]; [by right; left|].
  destruct (Memory.own _ !! id) as [u|]; [discriminate|].
  destruct (Memory.proto _) as [u|] eqn:E.
  - intros _. right. right.
    apply index_fold_proto in E as [[Hin Hk]|H]; [|discriminate].
    exists u. split; [exact Hin|]. by apply key_of_proto.
  - destruct (bool_decide_reflect (id ∈ Memory.object_prototype)); [|discriminate].
    by left.
Qed.

(** With unique property names, [map[t.id]] gives back the stored task. *)
Lemma get_stored (m : list Todo) (t : Todo) :
  NoDup (map Memory.key_of m) -> t ∈ m ->
  Memory.get (Memory.index_by_id m) (Memory.key_of t) = Memory.got_task t.
Proof.
  intros Hnd Hin. unfold Memory.get, Memory.index_by_id.
  assert (forall acc,
            (Memory.key_of t <> "__proto__" ->
             Memory.own (foldl Memory.assign acc m) !! Memory.key_of t = Some t) /\
            (Memory.key_of t = "__proto__" ->
             Memory.proto (foldl Memory.assign acc m) = Some t)) as H.
  { induction m as [|x r IH]; intros acc; [by apply elem_of_nil in Hin|].
    apply NoDup_cons in Hnd as [Hx Hnd]. simpl.
    apply elem_of_cons in Hin as [->|Hin]; [|by apply IH].
    assert (forall y, y ∈ r -> Memory.key_of y <> Memory.key_of x) as Hr.
    { intros y Hy E. apply Hx. rewrite <- E. apply list_elem_of_fmap. by exists y. }
    split; intros Hk.
    - rewrite index_fold_own_other by exact Hr.
      by rewrite assign_own, decide_True.
    - rewrite index_fold_proto_other by (intros y Hy; rewrite <- Hk; by apply Hr).
      by rewrite assign_proto, decide_True. }
  destruct (H {| Memory.own := ∅; Memory.proto := None |}) as [Hown Hproto].
  destruct (String.eqb_spec (Memory.key_of t) "__proto__") as [E|E].
  - by rewrite (Hproto E).
  - by rewrite (Hown E).
Qed.

Lemma reorder_entry_position (map : Memory.Index) (i : nat) (id : string) :
  t_position (Memory.reorder_entry map i id) = Z.of_nat i.
Proof. unfold Memory.reorder_entry. by destruct (Memory.get map id). Qed.

(** What an entry of the reordered list is. *)
Lemma reorder_entry_cases (m : list Todo) (i : nat) (id : string) :
  let e := Memory.reorder_entry (Memory.index_by_id m) i id in
  (exists t, t ∈ m /\ Memory.key_of t = id /\
             e = Memory.set_position (Z.of_nat i) t) \/
  e = Memory.placeholder id (Z.of_nat i) \/
  (e = Memory.only_position (Z.of_nat i) /\ inherits m id).
Proof.
  cbv zeta. unfold Memory.reorder_entry.
  destruct (Memory.get (Memory.index_by_id m) id) as [t| |] eqn:E.
  - left. exists t. apply get_task_elem in E as [Hin Hk]. by repeat split.
  - right. right. split; [reflexivity|]. by apply get_other_inherits.
  - right. by left.
Qed.

(** An entry with an id has the id it was listed under. *)
Lemma reorder_entry_id (m : list Todo) (i : nat) (id id' : string) :
  t_id (Memory.reorder_entry (Memory.index_by_id m) i id) = Some id' -> id' = id.
Proof.
  destruct (reorder_entry_cases m i id) as [(t & _ & Hk & ->)|[->|[-> _]]]; simpl.
  - intros Ht. unfold Memory.key_of in Hk. rewrite Ht in Hk. by simpl in Hk.
  - by intros [= ->].
  - discriminate.
Qed.

(** ** Reorder *)

(** C10: [todo:reorder] on the in-memory store leaves one entry per
    element of [order], in that order and nothing else: the [i]-th entry
    has position [i] and is the task stored under the [i]-th id, or a
    placeholder with that id, or, for a name the map object inherits, an
    object with a position only.  So a stored task whose id is not in
    [order] is gone; on the collection a document that no id of [order]
    denotes stays as it was, position included. *)
Theorem C10_reorder_in_memory_drops_unlisted (w : World) (s : Server)
    (order : list string) :
  let m' := inMemory (handleMessage false w s (todo_reorder order)).1 in
  let c' := collection (handleMessage true w s (todo_reorder order)).1 in
  length m' = length order /\
  (forall i id, order !! i = Some id ->
     exists e, m' !! i = Some e /\ t_position e = Z.of_nat i /\
       ((exists t, t ∈ inMemory s /\ Memory.key_of t = id /\
                   e = Memory.set_position (Z.of_nat i) t) \/
        e = Memory.placeholder id (Z.of_nat i) \/
        (e = Memory.only_position (Z.of_nat i) /\ inherits (inMemory s) id))) /\
  (forall t id, t ∈ inMemory s -> t_id t = Some id -> id ∉ order ->
     forall t', t' ∈ m' -> t_id t' <> Some id) /\
  (forall d, d ∈ collection s ->
     (forall id, id ∈ order -> cast_oid w id <> Some (d_id d)) -> d ∈ c').
Proof.
  cbn [handleMessage Memory.reorder fst inMemory set_inMemory].
  split; [by rewrite length_imap|]. split; [|split].
  - intros i id Hi. eexists. rewrite list_lookup_imap, Hi.
    split; [reflexivity|]. split; [apply reorder_entry_position|].
    apply reorder_entry_cases.
  - intros t id Hin Hid Hno t' Hin' Hid'.
    apply list_elem_of_lookup in Hin' as (j & Hj).
    rewrite list_lookup_imap in Hj.
    destruct (order !! j) as [idj|] eqn:Ej; simpl in Hj; [|discriminate].
    injection Hj as <-. apply reorder_entry_id in Hid'. subst idj.
    apply Hno. apply list_elem_of_lookup. by exists j.
  - intros d Hin Hno. unfold Durable.reorder.
    pose proof (reorder_from_keeps_other w 0 order (collection s) d Hin Hno) as H.
    by destruct (Durable.reorder_from w 0 order (collection s)).
Qed.

(** C7: an id of [order] that names no stored task gets a placeholder
    in memory, which is what the claim says, and nothing on the
    collection, where [findByIdAndUpdate] finds no document and creates
    none.  After one [todo:add], [todo:reorder] with the id of the task
    and an absent id leaves two entries in memory, at positions 0 and 1,
    and one document on the collection. *)
Theorem C7_placeholder_in_memory_only :
  let before c :=
    (handleMessage c (world_at 1) empty_server
       (todo_add (task_payload "a" None))).1 in
  let after c :=
    handleMessage c (world_at 2) (before c)
      (todo_reorder [first_id c; absent_id]) in
  lookup_task false (before false) absent_id = None /\
  lookup_task true (before true) absent_id = None /\
  map (fun t => (t_id t, t_position t)) (tasks false (after false).1) =
    [(Some "m_1", 0); (Some absent_id, 1)] /\
  lookup_task false (after false).1 absent_id = Some (Memory.placeholder absent_id 1) /\
  map (fun t => (t_id t, t_position t)) (tasks true (after true).1) =
    [(Some (sample_oid 1 0), 0)] /\
  lookup_task true (after true).1 absent_id = None /\
  replaced_list (after true).2 = Some (tasks true (after true).1).
Proof. repeat split; reflexivity. Qed.

(** ** The order of the list *)

Lemma sort_le_total (a b : Doc) : Mongo.sort_le a b = false -> Mongo.sort_le b a = true.
Proof.
  unfold Mongo.sort_le. intros H.
  apply orb_false_iff in H as [H1 H2]. apply Z.ltb_ge in H1.
  apply orb_true_iff.
  destruct (Z.ltb_spec (d_position b) (d_position a)); [by left|right].
  apply andb_true_iff. split; [apply Z.eqb_eq; lia|].
  apply andb_false_iff in H2 as [H2|H2].
  - apply Z.eqb_neq in H2. lia.
  - apply Z.leb_gt in H2. apply Z.leb_le. lia.
Qed.

Lemma sort_le_key (a b : Doc) :
  Mongo.sort_le a b = true <->
  d_position a < d_position b \/
  (d_position a = d_position b /\ d_createdAt b <= d_createdAt a).
Proof.
  unfold Mongo.sort_le.
  rewrite orb_true_iff, andb_true_iff, Z.ltb_lt, Z.eqb_eq, Z.leb_le. reflexivity.
Qed.

Lemma sort_le_trans (a b c : Doc) :
  Mongo.sort_le a b = true -> Mongo.sort_le b c = true -> Mongo.sort_le a c = true.
Proof. rewrite !sort_le_key. lia. Qed.

Lemma sort_insert_perm (d : Doc) (l : list Doc) : Mongo.sort_insert d l ≡ₚ d :: l.
Proof.
  induction l as [|x r IH]; simpl; [reflexivity|].
  destruct (Mongo.sort_le d x); [reflexivity|].
  rewrite IH. apply Permutation_swap.
Qed.

Lemma sort_perm (l : list Doc) : Mongo.sort l ≡ₚ l.
Proof.
  induction l as [|x r IH]; simpl; [reflexivity|].
  unfold Mongo.sort in *. simpl. by rewrite sort_insert_perm, IH.
Qed.

Lemma sort_insert_sorted (d : Doc) (l : list Doc) :
  StronglySorted (fun a b => Mongo.sort_le a b = true) l ->
  StronglySorted (fun a b => Mongo.sort_le a b = true) (Mongo.sort_insert d l).
Proof.
  induction 1 as [|x r Hr IH Hx]; simpl.
  { repeat constructor. }
  destruct (Mongo.sort_le d x) eqn:E.
  - constructor; [by constructor|]. constructor; [exact E|].
    eapply Forall_impl; [exact Hx|]. intros y Hy. by eapply sort_le_trans.
  - constructor; [exact IH|].
    rewrite sort_insert_perm. constructor; [by apply sort_le_total|exact Hx].
Qed.

Lemma sort_sorted (l : list Doc) :
  StronglySorted (fun a b => Mongo.sort_le a b = true) (Mongo.sort l).
Proof.
  induction l as [|x r IH]; [constructor|].
  unfold Mongo.sort in *. simpl. by apply sort_insert_sorted.
Qed.

Lemma StronglySorted_lookup {A} (R : A -> A -> Prop) (l : list A) (i j : nat)
    (a b : A) :
  StronglySorted R l -> (i < j)%nat -> l !! i = Some a -> l !! j = Some b -> R a b.
Proof.
  intros Hs. revert i j. induction Hs as [|x r Hr IH Hx]; intros i j Hij Hi Hj.
  { by rewrite lookup_nil in Hi. }
  destruct j as [|j]; [lia|]. simpl in Hj. destruct i as [|i]; simpl in Hi.
  - injection Hi as ->. rewrite Forall_forall in Hx. apply Hx.
    apply list_elem_of_lookup. by exists j.
  - apply (IH i j); [lia|done|done].
Qed.

(** On the collection, the list of [getAllTodos] holds the documents of
    the collection, by position and, among equal positions, latest first. *)
Lemma getAllTodos_durable_by_position (s : Server) :
  exists docs, getAllTodos true s = map Mongo.toObject docs /\
    docs ≡ₚ collection s /\ by_position docs.
Proof.
  exists (Mongo.sort (collection s)). split; [reflexivity|].
  split; [apply sort_perm|].
  intros i j a b Hij Hi Hj. apply sort_le_key.
  apply (StronglySorted_lookup (fun a b => Mongo.sort_le a b = true)
           (Mongo.sort (collection s)) i j a b); [apply sort_sorted|done..].
Qed.

Lemma last_position_ge (c : list Doc) (d : Doc) :
  d ∈ c -> exists p, Mongo.last_position c = Some p /\ d_position d <= p.
Proof.
  induction c as [|x r IH]; intros Hin; [by apply elem_of_nil in Hin|].
  simpl. apply elem_of_cons in Hin as [->|Hin].
  - destruct (Mongo.last_position r) as [m|]; eexists; split; try reflexivity; lia.
  - destruct (IH Hin) as (p & -> & Hp). eexists; split; [reflexivity|]. lia.
Qed.

(** [todo:add] on the collection gives the new document a position
    after all the others. *)
Lemma next_position_after (c : list Doc) (d : Doc) :
  d ∈ c -> d_position d < Durable.next_position c.
Proof.
  intros Hin. unfold Durable.next_position.
  destruct (last_position_ge c d Hin) as (p & -> & Hp). lia.
Qed.

(** C6: in memory the full list is sent in stored order, and [todo:add]
    puts the new task in front with the position [inMemory.length]: after
    two adds the list of [sync:request], and the one pushed to a new
    session, has positions 1, 0, not ascending, where the collection gives
    0, 1 for the same messages. *)
Theorem C6_in_memory_list_not_by_position :
  let adds := [(world_at 1, todo_add (task_payload "a" None));
               (world_at 2, todo_add (task_payload "b" None))] in
  let msgs := adds ++ [(world_at 3, sync_request)] in
  (map t_position <$> replaced_list (run false empty_server msgs).2) = Some [1; 0] /\
  (map t_position <$>
     replaced_list (onConnection false (run false empty_server adds).1)) = Some [1; 0] /\
  (map t_position <$> replaced_list (run true empty_server msgs).2) = Some [0; 1].
Proof. repeat split; reflexivity. Qed.

(** ** Restore *)

Lemma restoreMany_memory_prepends (w : World) (s : Server) (items : list Todo) :
  let r := handleMessage false w s (todo_restoreMany items) in
  inMemory r.1 = items ++ inMemory s /\
  replaced_list r.2 = Some (items ++ inMemory s).
Proof. split; reflexivity. Qed.

(** C8: on the collection [todo:restoreMany] inserts the snapshots with
    positions [Date.now() + i] and without their [locked] flag: a locked
    snapshot restored next to a stored task comes after it in the list and
    unlocked, where the in-memory store puts it first and keeps it locked. *)
Theorem C8_restore_on_collection_appends_and_unlocks :
  let before := [(world_at 1700000000000, todo_add (task_payload "a" None))] in
  let restore := (world_at 1700000060000, todo_restoreMany [sample_snapshot]) in
  let durable :=
    replaced_list (run true (run true empty_server before).1 [restore]).2 in
  let memory :=
    replaced_list (run false (run false empty_server before).1 [restore]).2 in
  t_locked sample_snapshot = true /\
  (map t_text <$> durable) = Some [Some "a"; Some "x"] /\
  (map t_position <$> durable) = Some [0; 1700000060000] /\
  (map t_locked <$> durable) = Some [false; false] /\
  (map t_text <$> memory) = Some [Some "x"; Some "a"] /\
  (map t_locked <$> memory) = Some [true; false].
Proof. repeat split; reflexivity. Qed.

(** ** The two stores compared *)

(** C9: the two stores do not behave alike.  From empty stores, the
    same two [todo:add] messages followed by [sync:request] give the list
    in opposite orders: oldest first on the collection, newest first in
    memory. *)
Theorem C9_stores_diverge_on_list_order :
  let msgs := [(world_at 1, todo_add (task_payload "a" None));
               (world_at 2, todo_add (task_payload "b" None));
               (world_at 3, sync_request)] in
  (map t_text <$> replaced_list (run true empty_server msgs).2)
    = Some [Some "a"; Some "b"] /\
  (map t_text <$> replaced_list (run false empty_server msgs).2)
    = Some [Some "b"; Some "a"].
Proof. split; reflexivity. Qed.

(** ** What the handlers preserve *)


Lemma Forall_update_pres (Q : Doc -> Prop) (id : string) (f : Doc -> Doc)
    (c : list Doc) :
  Forall Q c -> (forall d, Q d -> Q (f d)) ->
  Forall Q (Mongo.update_by_id id f c).
Proof.
  intros Hc Hf. induction Hc as [|d r Hd Hr IH]; simpl; [constructor|].
  destruct (String.eqb (d_id d) id); constructor; auto.
Qed.



Lemma Forall_delete (Q : Doc -> Prop) (id : string) (c : list Doc) :
  Forall Q c -> Forall Q (Mongo.delete_by_id id c).
Proof.
  induction 1 as [|d r Hd Hr IH]; simpl; [constructor|].
  destruct (String.eqb (d_id d) id); [exact Hr|by constructor].
Qed.

Lemma Forall_filter_pres {A} (Q P : A -> Prop) `{!forall x, Decision (P x)}
    (l : list A) :
  Forall Q l -> Forall Q (filter P l).
Proof.
  rewrite !Forall_forall. intros HQ x Hx.
  apply list_elem_of_filter in Hx as [_ Hx]. by apply HQ.
Qed.

Lemma found_in_Forall (Q : Doc -> Prop) (id : string) (c : list Doc) (d : Doc) :
  Forall Q c -> Mongo.by_id id c = Some d -> Q d.
Proof.
  intros Hc Hd. apply by_id_Some in Hd as [Hin _].
  rewrite Forall_forall in Hc. by apply Hc.
Qed.

Lemma unlock_dependents_pres (Q : Doc -> Prop) (w : World) (s : Server)
    (c dependents : list Doc) :
  (forall d, Q d -> Q (Mongo.set_locked false d)) ->
  Forall Q c -> Forall Q (Durable.unlock_dependents w s c dependents).1.
Proof.
  intros HQ. revert c. induction dependents as [|dep rest IH]; intros c Hc; [exact Hc|].
  simpl. destruct (computeLockedFor true w _ _ _) as [locked|]; [|exact Hc].
  destruct (negb locked && d_locked dep); [|by apply IH].
  destruct (Mongo.by_id _ _).
  - specialize (IH (Mongo.update_by_id (d_id dep) (Mongo.set_locked false) c)).
    destruct (Durable.unlock_dependents w s _ rest) as [c'' out]. simpl in *.
    apply IH. by apply Forall_update_pres.
  - simpl. by apply Forall_update_pres.
Qed.

Lemma reorder_from_pres (Q : Doc -> Prop) (w : World) (i : nat)
    (order : list string) (c : list Doc) :
  (forall k d, Q d -> Q (Mongo.set_position k d)) ->
  Forall Q c -> Forall Q (Durable.reorder_from w i order c).1.
Proof.
  intros HQ. revert i c. induction order as [|id rest IH]; intros i c Hc; [exact Hc|].
  simpl. unfold Mongo.findByIdAndUpdate.
  destruct (cast_oid w id) as [oid|]; [|exact Hc].
  apply IH. apply Forall_update_pres; [exact Hc|]. intros d. apply HQ.
Qed.

Lemma reorder_collection (w : World) (s : Server) (order : list string) :
  collection (Durable.reorder w s order).1 =
  (Durable.reorder_from w 0 order (collection s)).1.
Proof.
  unfold Durable.reorder.
  by destruct (Durable.reorder_from w 0 order (collection s)).
Qed.

(** What [todo:toggle] leaves in the collection: what it was, or the
    collection after the document was saved and the unlock pass ran. *)
Lemma toggle_collection (w : World) (s : Server) (id : string) :
  collection (Durable.toggle w s id).1 = collection s \/
  exists d0 l,
    cast_oid w id = Some (d_id d0) /\
    Mongo.by_id (d_id d0) (collection s) = Some d0 /\
    let c1 := Mongo.update_by_id (d_id d0)
                (Mongo.set_completed (negb (d_completed d0))) (collection s) in
    collection (Durable.toggle w s id).1 = c1 \/
    collection (Durable.toggle w s id).1 = (Durable.unlock_dependents w s c1 l).1.
Proof.
  unfold Durable.toggle, Mongo.findById.
  destruct (cast_oid w id) as [oid|]; [|by left].
  destruct (Mongo.by_id oid (collection s)) as [d0|] eqn:E; [|by left].
  destruct (truthy (d_text d0)); [|by left].
  right. pose proof (by_id_Some _ _ _ E) as [_ Hid].
  exists d0.
  destruct (d_completed (Mongo.set_completed (negb (d_completed d0)) d0)).
  - exists (Mongo.find_dependents (d_id d0)
              (Mongo.update_by_id (d_id d0)
                 (Mongo.set_completed (negb (d_completed d0))) (collection s))).
    rewrite Hid. split; [reflexivity|]. split; [exact E|]. right.
    cbn [Mongo.set_completed d_id].
    rewrite Hid. by destruct (Durable.unlock_dependents w s _ _).
  - exists []. rewrite Hid. split; [reflexivity|]. split; [exact E|]. by left.
Qed.

Lemma toggle_pres (Q : Doc -> Prop) (w : World) (s : Server) (id : string) :
  (forall b d, Q d -> Q (Mongo.set_completed b d)) ->
  (forall d, Q d -> Q (Mongo.set_locked false d)) ->
  Forall Q (collection s) -> Forall Q (collection (Durable.toggle w s id).1).
Proof.
  intros Hc Hl Hs.
  destruct (toggle_collection w s id) as [->|(d0 & l & _ & _ & [->| ->])].
  - exact Hs.
  - apply Forall_update_pres; [exact Hs|]. intros d. apply Hc.
  - apply unlock_dependents_pres; [exact Hl|].
    apply Forall_update_pres; [exact Hs|]. intros d. apply Hc.
Qed.

(** What [todo:edit] leaves in the collection: what it was, or the
    collection after the update, or that after the lock was written too;
    the lock written is the one computed after the update. *)
Lemma edit_collection (w : World) (s : Server) (id : string) (p : Payload) :
  let c := collection s in
  let c' := collection (Durable.edit w s id p).1 in
  c' = c \/
  exists oid, cast_oid w id = Some oid /\
    let c1 := Mongo.update_by_id oid (Durable.edit_update w p) c in
    (c' = c1 /\
     forall d1, Mongo.by_id oid c1 = Some d1 ->
       computeLockedFor true w (set_collection s c1) (Some id) (d_dependencies d1)
       <> Some (negb (d_locked d1))) \/
    (exists d1,
       Mongo.by_id oid c1 = Some d1 /\
       computeLockedFor true w (set_collection s c1) (Some id) (d_dependencies d1)
       = Some (negb (d_locked d1)) /\
       c' = Mongo.update_by_id oid (Mongo.set_locked (negb (d_locked d1))) c1).
Proof.
  cbv zeta. unfold Durable.edit, Mongo.findByIdAndUpdate, Mongo.findById.
  destruct (cast_oid w id) as [oid|] eqn:Hc; [|by left].
  right. exists oid. split; [reflexivity|].
  destruct (Mongo.by_id oid (Mongo.update_by_id oid _ (collection s)))
    as [d1|] eqn:E1.
  - destruct (computeLockedFor true w _ (Some id) (d_dependencies d1))
      as [locked|] eqn:El.
    + destruct (Bool.eqb locked (d_locked d1)) eqn:Eb; cbn [negb].
      * left. split; [reflexivity|]. intros d Hd. injection Hd as <-.
        apply Bool.eqb_prop in Eb. rewrite El, Eb.
        destruct (d_locked d1); simpl; congruence.
      * right. exists d1. apply Bool.eqb_false_iff in Eb.
        assert (locked = negb (d_locked d1)) as ->.
        { by destruct locked, (d_locked d1). }
        by repeat split.
    + left. split; [reflexivity|]. intros d Hd. injection Hd as <-.
      by rewrite El.
  - left. split; [reflexivity|]. discriminate.
Qed.

Lemma edit_pres (Q : Doc -> Prop) (w : World) (s : Server) (id : string)
    (p : Payload) :
  (forall d, Q d -> Q (Durable.edit_update w p d)) ->
  (forall b d, Q d -> Q (Mongo.set_locked b d)) ->
  Forall Q (collection s) -> Forall Q (collection (Durable.edit w s id p).1).
Proof.
  intros He Hl Hs.
  destruct (edit_collection w s id p)
    as [->|(oid & _ & [[-> _]|(d1 & _ & _ & ->)])].
  - exact Hs.
  - by apply Forall_update_pres.
  - apply Forall_update_pres; [by apply Forall_update_pres|]. intros d. apply Hl.
Qed.

Lemma remove_collection (w : World) (s : Server) (id : string) :
  collection (Durable.remove w s id).1 = collection s \/
  exists oid, cast_oid w id = Some oid /\
    collection (Durable.remove w s id).1 = Mongo.delete_by_id oid (collection s).
Proof.
  unfold Durable.remove, Mongo.findByIdAndDelete.
  destruct (cast_oid w id) as [oid|]; [|by left]. right. by exists oid.
Qed.

Lemma add_collection (w : World) (s : Server) (p : Payload) :
  collection (Durable.add w s p).1 = collection s \/
  exists locked,
    computeLockedFor true w s None (default [] (p_dependencies p)) = Some locked /\
    truthy (p_text p) = true /\
    collection (Durable.add w s p).1 = collection s ++ [Durable.added w s p locked].
Proof.
  unfold Durable.add.
  destruct (computeLockedFor true w s None _) as [locked|]; [|by left].
  destruct (truthy (p_text p)) eqn:E; [|by left]. right. by exists locked.
Qed.



(** ** Tasks without dependencies stay unlocked *)









(** ** The unlock pass in memory *)

Lemma unlock_turn_step (m m0 : list Todo) (tid : string) (out : list Event)
    (i : nat) (other : Todo) :
  (forall dep, blocks m dep = blocks m0 dep) ->
  m !! i = Some other ->
  Memory.unlock_turn tid (m, out) i =
  (<[i := unlock_one m0 tid other]> m, out ++ unlock_events m0 tid other).
Proof.
  intros Hb Hi. unfold Memory.unlock_turn, unlock_one, unlock_events, unlocks.
  rewrite Hi.
  destruct (t_dependencies other) as [deps|].
  - rewrite (existsb_pointwise (blocks m) (blocks m0)) by exact Hb.
    destruct (bool_decide (tid ∈ deps)); cbn [andb].
    + destruct (negb (existsb (blocks m0) deps) && t_locked other); [reflexivity|].
      by rewrite list_insert_id, app_nil_r.
    + by rewrite list_insert_id, app_nil_r.
  - by rewrite list_insert_id, app_nil_r.
Qed.

Lemma unlock_one_id (m : list Todo) (tid : string) (t : Todo) :
  t_id (unlock_one m tid t) = t_id t.
Proof. unfold unlock_one. by destruct (unlocks m tid t). Qed.

Lemma unlock_one_completed (m : list Todo) (tid : string) (t : Todo) :
  t_completed (unlock_one m tid t) = t_completed t.
Proof. unfold unlock_one. by destruct (unlocks m tid t). Qed.

(** The loop over the indices from [start] on maps [unlock_one] over the
    rest of the list and sends the events of its elements in order. *)
Lemma unlock_loop_from (tid : string) (m0 : list Todo) (len start : nat)
    (m : list Todo) (out : list Event) :
  (forall dep, blocks m dep = blocks m0 dep) ->
  (start + len = length m)%nat ->
  foldl (Memory.unlock_turn tid) (m, out) (seq start len) =
  (take start m ++ map (unlock_one m0 tid) (drop start m),
   out ++ flat_map (unlock_events m0 tid) (drop start m)).
Proof.
  revert start m out. induction len as [|len IH]; intros start m out Hb Hlen.
  - simpl. rewrite drop_ge, take_ge by lia. simpl. by rewrite !app_nil_r.
  - destruct (lookup_lt_is_Some_2 m start) as [other Hi]; [lia|].
    cbn [seq foldl]. rewrite (unlock_turn_step m m0 tid out start other Hb Hi).
    rewrite IH.
    + rewrite (drop_S m other start Hi). cbn [map flat_map].
      rewrite drop_insert_lt by lia.
      rewrite (take_S_r (<[start := unlock_one m0 tid other]> m) start
                 (unlock_one m0 tid other)).
      * rewrite take_insert_ge by lia. by rewrite <- !app_assoc.
      * apply list_lookup_insert_eq. by eapply lookup_lt_Some.
    + intros dep. rewrite <- Hb.
      apply (blocks_insert m start other); [exact Hi|apply unlock_one_id|
                                             apply unlock_one_completed].
    + rewrite length_insert. lia.
Qed.

Lemma toggle_memory_result (s : Server) (id : string) (idx : nat) (x : Todo) :
  findIndex id (inMemory s) = Some (idx, x) ->
  let x' := Memory.set_completed (negb (t_completed x)) x in
  let m1 := <[idx := x']> (inMemory s) in
  Memory.toggle s id =
  if t_completed x then (set_inMemory s m1, [Broadcast (sync_update x') false])
  else (set_inMemory s (map (unlock_one m1 id) m1),
        Broadcast (sync_update x') false :: flat_map (unlock_events m1 id) m1).
Proof.
  intros Hf x' m1. pose proof (findIndex_Some _ _ _ _ Hf) as (_ & Hid & _).
  unfold Memory.toggle. rewrite Hf.
  change (t_completed (Memory.set_completed (negb (t_completed x)) x))
    with (negb (t_completed x)).
  fold x'. fold m1.
  destruct (t_completed x); cbn [negb]; [reflexivity|].
  rewrite (unlock_loop_from id m1 (length m1) 0 m1) by done.
  by rewrite take_0, drop_0.
Qed.

(** ** Unlocking on completion *)

(** C4: in memory a dependency that names no task keeps the lock.  The
    task [b] lists [a] and an id that names no task, so [a] is its sole
    incomplete dependency, and [b] is locked.  Completing [a] on the
    collection unlocks [b] and sends, after the update of [a], the update
    of [b] and one reminder for it, as the claim says; in memory the same
    messages leave [b] locked and send the update of [a] only. *)
Theorem C4_dangling_dependency_keeps_lock_in_memory :
  let before c := (run c empty_server (dangling_session c)).1 in
  let after c :=
    handleMessage c (world_at 3) (before c) (todo_toggle (Some (first_id c))) in
  let b c := lookup_task c (before c) (second_id c) in
  let a c := lookup_task c (before c) (first_id c) in
  ((t_locked <$> b false) = Some true /\ (t_locked <$> b true) = Some true) /\
  ((t_dependencies <$> b false) = Some (Some [first_id false; absent_id]) /\
   (t_dependencies <$> b true) = Some (Some [first_id true; absent_id])) /\
  (lookup_task false (before false) absent_id = None /\
   lookup_task true (before true) absent_id = None) /\
  ((t_completed <$> a false) = Some false /\ (t_completed <$> a true) = Some false) /\
  (exists T,
     lookup_task false (after false).1 (first_id false) = Some T /\
     t_completed T = true /\
     (after false).2 = [Broadcast (sync_update T) false]) /\
  (t_locked <$> lookup_task false (after false).1 (second_id false)) = Some true /\
  (exists T B,
     lookup_task true (after true).1 (first_id true) = Some T /\
     t_completed T = true /\
     lookup_task true (after true).1 (second_id true) = Some B /\
     t_locked B = false /\
     (after true).2 =
       [Broadcast (sync_update T) false; Broadcast (sync_update B) false;
        Broadcast (todo_reminder (t_id B) reminder_text) false]).
Proof.
  cbv zeta. repeat split; try reflexivity.
  - eexists. split; [reflexivity|]. split; reflexivity.
  - eexists. eexists. split; [reflexivity|]. split; [reflexivity|].
    split; [reflexivity|]. split; reflexivity.
Qed.

(** * Further properties *)

(** ** The lock rule of each store *)

(** X1: on the collection [computeLockedFor] rejects when one of the
    dependencies cannot be cast to an [ObjectId]; otherwise it answers
    [true] exactly when a stored document that one of the dependencies
    denotes is not completed, so a dependency that denotes no document
    never locks. *)
Theorem lock_on_collection_iff_incomplete_dependency (w : World) (s : Server)
    (id : option string) (deps : list string) :
  match Mongo.cast_all w deps with
  | Some oids =>
      exists b, computeLockedFor true w s id deps = Some b /\
        (b = true <->
         exists d, d ∈ collection s /\ d_id d ∈ oids /\ d_completed d = false)
  | None => computeLockedFor true w s id deps = None
  end.
Proof.
  destruct (Mongo.cast_all w deps) as [oids|] eqn:E.
  - by apply computeLockedFor_durable.
  - by apply computeLockedFor_rejects.
Qed.

(** X2: in memory [computeLockedFor] always answers, and it answers
    [true] exactly when one of the dependencies names no stored task, or
    names one (the first with that id) that is not completed. *)
Theorem lock_in_memory_iff_missing_or_incomplete (w : World) (s : Server)
    (id : option string) (deps : list string) :
  exists b, computeLockedFor false w s id deps = Some b /\
    (b = true <->
     exists dep, dep ∈ deps /\
       (find_todo dep (inMemory s) = None \/
        exists t, find_todo dep (inMemory s) = Some t /\ t_completed t = false)).
Proof.
  eexists. split; [apply computeLockedFor_false|]. apply existsb_blocks.
Qed.

(** ** The priority derived from a due date *)

(** X3: [computePriorityByDue] gives [high] exactly when the due instant
    is at most 24 hours ahead (24 hours included, overdue included),
    [medium] exactly when it is more than 24 and at most 72 hours ahead,
    and nothing otherwise: without a due date, with a date the parser
    rejects, or more than 72 hours ahead.  It never gives [low]. *)
Theorem priority_by_due_cases (w : World) (dueDate dueTime : option string) :
  let derived := computePriorityByDue w dueDate dueTime in
  let due := due_instant w dueDate dueTime in
  (derived = Some "high" <->
   exists target, due = Some target /\ target - now w <= day) /\
  (derived = Some "medium" <->
   exists target, due = Some target /\ day < target - now w <= 3 * day) /\
  (derived = None <->
   due = None \/ exists target, due = Some target /\ 3 * day < target - now w) /\
  (forall a, derived = Some a -> a = "high" \/ a = "medium").
Proof.
  cbv zeta. rewrite computePriorityByDue_due_instant.
  destruct (due_instant w dueDate dueTime) as [target|].
  - assert (0 < day) as Hday by (unfold day; lia).
    destruct (Z.leb_spec (target - now w) day) as [H1|H1];
      [|destruct (Z.leb_spec (target - now w) (3 * day)) as [H3|H3]].
    + repeat split; try discriminate.
      * intros _. by exists target.
      * intros (t & [= <-] & Ht). lia.
      * intros [|(t & [= <-] & Ht)]; [discriminate|lia].
      * intros a [= <-]. by left.
    + repeat split; try discriminate.
      * intros (t & [= <-] & Ht). lia.
      * by exists target.
      * intros [|(t & [= <-] & Ht)]; [discriminate|lia].
      * intros a [= <-]. by right.
    + repeat split; try discriminate.
      * intros (t & [= <-] & Ht). lia.
      * intros (t & [= <-] & Ht). lia.
      * intros _. right. by exists target.
  - repeat split; try discriminate.
    + by intros (t & ? & _).
    + by intros (t & ? & _).
    + intros _. by left.
Qed.

(** ** The list on the collection *)

(** X4: on the collection [getAllTodos] returns every stored document
    once, ordered by position and, among equal positions, latest first. *)
Theorem list_on_collection_is_sorted (s : Server) :
  exists docs, getAllTodos true s = map Mongo.toObject docs /\
    docs ≡ₚ collection s /\ by_position docs.
Proof. apply getAllTodos_durable_by_position. Qed.

Lemma sort_insert_app (x : Doc) (a l : list Doc) :
  (forall y, y ∈ l -> Mongo.sort_le x y = true) ->
  Mongo.sort_insert x (a ++ l) = Mongo.sort_insert x a ++ l.
Proof.
  intros Hl. induction a as [|z a IH]; simpl.
  - destruct l as [|y l]; [reflexivity|]. simpl.
    by rewrite (Hl y (list_elem_of_here _ _)).
  - destruct (Mongo.sort_le x z); [reflexivity|]. by rewrite IH.
Qed.

Lemma sort_sorted_id (l : list Doc) :
  StronglySorted (fun a b => Mongo.sort_le a b = true) l -> Mongo.sort l = l.
Proof.
  induction 1 as [|x r Hr IH Hx]; [reflexivity|].
  unfold Mongo.sort in *. simpl. rewrite IH.
  destruct r as [|y r]; [reflexivity|]. simpl.
  apply Forall_cons in Hx as [Hy _]. by rewrite Hy.
Qed.

(** Documents that all come later in the order are listed after the
    others, as they are. *)
Lemma sort_app_later (c l : list Doc) :
  (forall x y, x ∈ c -> y ∈ l -> Mongo.sort_le x y = true) ->
  StronglySorted (fun a b => Mongo.sort_le a b = true) l ->
  Mongo.sort (c ++ l) = Mongo.sort c ++ l.
Proof.
  intros Hcl Hl. induction c as [|x c IH]; [by apply sort_sorted_id|].
  change (Mongo.sort ((x :: c) ++ l))
    with (Mongo.sort_insert x (Mongo.sort (c ++ l))).
  rewrite IH.
  - rewrite sort_insert_app; [reflexivity|].
    intros y Hy. apply Hcl; [apply list_elem_of_here|exact Hy].
  - intros a b Ha Hb. apply Hcl; [by apply list_elem_of_further|exact Hb].
Qed.

Lemma StronglySorted_of_lookup {A} (R : A -> A -> Prop) (l : list A) :
  (forall i j a b, (i < j)%nat -> l !! i = Some a -> l !! j = Some b -> R a b) ->
  StronglySorted R l.
Proof.
  induction l as [|x r IH]; intros H; constructor.
  - apply IH. intros i j a b Hij Hi Hj. apply (H (S i) (S j)); [lia|done|done].
  - apply Forall_forall. intros y Hy. apply list_elem_of_lookup in Hy as (j & Hj).
    apply (H 0%nat (S j)); [lia|done|done].
Qed.

Lemma lower_position_first (a b : Doc) :
  d_position a < d_position b -> Mongo.sort_le a b = true.
Proof. intros H. apply sort_le_key. by left. Qed.

(** ** Adding a task *)

Lemma durable_add_result (w : World) (s : Server) (p : Payload) (t : Todo) :
  updated_task (Durable.add w s p).2 = Some t ->
  exists doc,
    (Durable.add w s p).1 = set_collection s (collection s ++ [doc]) /\
    t = Mongo.toObject doc /\
    d_id doc = new_oid w 0 /\
    d_position doc = Durable.next_position (collection s) /\
    d_createdAt doc = now w /\
    (Durable.add w s p).2 =
      confirm (p_id p) (d_id doc) ++ [Broadcast (sync_update t) true].
Proof.
  unfold Durable.add.
  destruct (computeLockedFor true w s None _) as [locked|]; [|discriminate].
  destruct (truthy (p_text p)); [|discriminate]. cbn [fst snd].
  rewrite updated_task_confirm. intros [= <-].
  eexists. split; [reflexivity|]. by repeat split.
Qed.

Lemma memory_add_result (w : World) (s : Server) (p : Payload) :
  exists obj,
    Memory.add w s p =
      (set_inMemory s (obj :: inMemory s),
       confirm (p_id p) ("m_" +:+ pretty (now w))
       ++ [Broadcast (sync_update obj) true]) /\
    t_id obj = Some ("m_" +:+ pretty (now w)) /\
    t_position obj = Z.of_nat (length (inMemory s)).
Proof.
  unfold Memory.add. rewrite computeLockedFor_false. cbv zeta.
  eexists. split; [reflexivity|]. by split.
Qed.

(** X5: two [todo:add] handled one after the other never give the same
    position: the second task gets a greater one, on both stores; on the
    collection the position of a new task is also above every stored
    position. *)
Theorem add_positions_increase (connected : bool) (w1 w2 : World) (s : Server)
    (p1 p2 : Payload) (t1 t2 : Todo) :
  let r1 := handleMessage connected w1 s (todo_add p1) in
  let r2 := handleMessage connected w2 r1.1 (todo_add p2) in
  updated_task r1.2 = Some t1 -> updated_task r2.2 = Some t2 ->
  t_position t1 < t_position t2 /\
  (connected = true ->
   forall t, t ∈ tasks true s -> t_position t < t_position t1).
Proof.
  cbn [handleMessage]. destruct connected; cbv zeta.
  - intros H1 H2.
    destruct (durable_add_result w1 s p1 t1 H1) as (d1 & Hs1 & -> & _ & Hp1 & _).
    rewrite Hs1 in H2.
    destruct (durable_add_result w2 _ p2 t2 H2) as (d2 & _ & -> & _ & Hp2 & _).
    cbn [Mongo.toObject t_position collection set_collection] in *.
    split.
    + rewrite Hp2. apply next_position_after.
      apply elem_of_app. right. apply list_elem_of_here.
    + intros _ t Ht. apply list_elem_of_fmap in Ht as (d & -> & Hd).
      cbn [Mongo.toObject t_position]. rewrite Hp1.
      by apply next_position_after.
  - destruct (memory_add_result w1 s p1) as (o1 & -> & _ & Hp1).
    cbn [fst snd]. rewrite updated_task_confirm. intros [= <-].
    destruct (memory_add_result w2 (set_inMemory s (o1 :: inMemory s)) p2)
      as (o2 & -> & _ & Hp2).
    cbn [fst snd]. rewrite updated_task_confirm. intros [= <-].
    rewrite Hp1, Hp2. cbn [inMemory set_inMemory length].
    split; [lia|discriminate].
Qed.

Lemma add_positions_increase_witness :
  let r1 := handleMessage true (world_at 1) empty_server
              (todo_add (task_payload "a" None)) in
  let r2 := handleMessage true (world_at 2) r1.1
              (todo_add (task_payload "b" None)) in
  exists t1 t2, updated_task r1.2 = Some t1 /\ updated_task r2.2 = Some t2 /\
    t_position t1 < t_position t2.
Proof.
  intros r1 r2.
  destruct (updated_task r1.2) as [t1|] eqn:H1; [|by vm_compute in H1].
  destruct (updated_task r2.2) as [t2|] eqn:H2; [|by vm_compute in H2].
  exists t1, t2. split; [reflexivity|]. split; [reflexivity|].
  apply (add_positions_increase true (world_at 1) (world_at 2) empty_server
           (task_payload "a" None) (task_payload "b" None) t1 t2 H1 H2).
Defined.

(** X6: a task added by [todo:add] is listed last by [getAllTodos] on the
    collection and first in memory; the tasks listed before keep their
    order. *)
Theorem added_task_is_listed (connected : bool) (w : World) (s : Server)
    (p : Payload) (t : Todo) :
  let r := handleMessage connected w s (todo_add p) in
  updated_task r.2 = Some t ->
  getAllTodos connected r.1 =
  if connected then getAllTodos true s ++ [t] else t :: getAllTodos false s.
Proof.
  cbn [handleMessage]. destruct connected; cbv zeta.
  - intros H. destruct (durable_add_result w s p t H) as (d & -> & -> & _ & Hp & _).
    unfold getAllTodos. cbn [collection set_collection].
    rewrite sort_app_later.
    + by rewrite map_app.
    + intros x y Hx Hy. apply list_elem_of_singleton in Hy as ->.
      apply lower_position_first. rewrite Hp. by apply next_position_after.
    + repeat constructor.
  - destruct (memory_add_result w s p) as (o & -> & _ & _).
    cbn [fst snd]. rewrite updated_task_confirm. by intros [= <-].
Qed.

Lemma added_task_is_listed_witness :
  let s := (handleMessage true (world_at 1) empty_server
              (todo_add (task_payload "a" None))).1 in
  let r := handleMessage true (world_at 2) s (todo_add (task_payload "b" None)) in
  exists t, updated_task r.2 = Some t /\
    getAllTodos true r.1 = getAllTodos true s ++ [t].
Proof.
  intros s r.
  destruct (updated_task r.2) as [t|] eqn:H; [|by vm_compute in H].
  exists t. split; [reflexivity|].
  apply (added_task_is_listed true (world_at 2) s (task_payload "b" None) t H).
Defined.

(** X7: in memory the id of a new task is made of the clock alone, so two
    [todo:add] handled in the same millisecond give two stored tasks with
    one id, and a lookup by that id reaches the later one only. *)
Theorem same_millisecond_adds_share_an_id (w1 w2 : World) (s : Server)
    (p1 p2 : Payload) :
  now w1 = now w2 ->
  let r1 := handleMessage false w1 s (todo_add p1) in
  let r2 := handleMessage false w2 r1.1 (todo_add p2) in
  exists t1 t2 id,
    updated_task r1.2 = Some t1 /\ updated_task r2.2 = Some t2 /\
    t_id t1 = Some id /\ t_id t2 = Some id /\
    inMemory r2.1 = t2 :: t1 :: inMemory s /\
    lookup_task false r2.1 id = Some t2.
Proof.
  intros Hnow. cbn [handleMessage]. cbv zeta.
  destruct (memory_add_result w1 s p1) as (o1 & -> & Hid1 & _). cbn [fst snd].
  destruct (memory_add_result w2 (set_inMemory s (o1 :: inMemory s)) p2)
    as (o2 & -> & Hid2 & _). cbn [fst snd].
  exists o1, o2, ("m_" +:+ pretty (now w1)). rewrite !updated_task_confirm.
  split; [reflexivity|]. split; [reflexivity|]. split; [exact Hid1|].
  split; [by rewrite Hnow|]. split; [reflexivity|].
  cbn [lookup_task inMemory set_inMemory]. unfold find_todo, findIndex.
  simpl. rewrite decide_True by (by rewrite Hnow). reflexivity.
Qed.

Lemma same_millisecond_adds_share_an_id_witness :
  let r1 := handleMessage false (world_at 7) empty_server
              (todo_add (task_payload "a" None)) in
  let r2 := handleMessage false (world_at 7) r1.1
              (todo_add (task_payload "b" None)) in
  exists t1 t2 id,
    updated_task r1.2 = Some t1 /\ updated_task r2.2 = Some t2 /\
    t_id t1 = Some id /\ t_id t2 = Some id /\
    inMemory r2.1 = t2 :: t1 :: inMemory empty_server /\
    lookup_task false r2.1 id = Some t2.
Proof.
  exact (same_millisecond_adds_share_an_id (world_at 7) (world_at 7) empty_server
           (task_payload "a" None) (task_payload "b" None) eq_refl).
Defined.

(** ** Removing tasks *)

Lemma filter_keeps_all {A} (P : A -> Prop) `{!forall x, Decision (P x)}
    (l : list A) :
  (forall x, x ∈ l -> P x) -> filter P l = l.
Proof.
  induction l as [|x r IH]; intros Hall; [reflexivity|].
  rewrite filter_cons, decide_True by apply Hall, list_elem_of_here.
  f_equal. apply IH. intros y Hy. by apply Hall, list_elem_of_further.
Qed.

Lemma delete_as_filter (id : string) (c : list Doc) :
  NoDup (map d_id c) ->
  Mongo.delete_by_id id c = filter (fun d => d_id d <> id) c.
Proof.
  induction c as [|d r IH]; intros Hnd; [reflexivity|].
  apply NoDup_cons in Hnd as [Hd Hnd]. simpl. rewrite filter_cons.
  destruct (String.eqb_spec (d_id d) id) as [E|E].
  - rewrite decide_False by (intros H; by apply H).
    symmetry. apply filter_keeps_all. intros x Hx Hxid. apply Hd.
    rewrite E, <- Hxid. apply list_elem_of_fmap. by exists x.
  - rewrite decide_True by exact E. by rewrite IH.
Qed.

Lemma filter_toObject (P : Todo -> Prop) `{!forall t, Decision (P t)}
    (c : list Doc) :
  filter P (map Mongo.toObject c) =
  map Mongo.toObject (filter (fun d => P (Mongo.toObject d)) c).
Proof.
  induction c as [|d r IH]; [reflexivity|].
  simpl. rewrite !filter_cons. destruct (decide (P (Mongo.toObject d))); simpl;
    by rewrite IH.
Qed.

Lemma filter_equiv {A} (P Q : A -> Prop) `{!forall x, Decision (P x)}
    `{!forall x, Decision (Q x)} (l : list A) :
  (forall x, P x <-> Q x) -> filter P l = filter Q l.
Proof.
  intros HPQ. induction l as [|x r IH]; [reflexivity|].
  rewrite !filter_cons, IH.
  destruct (decide (P x)) as [Hp|Hp], (decide (Q x)) as [Hq|Hq];
    try reflexivity; exfalso; apply HPQ in Hp || apply HPQ in Hq; contradiction.
Qed.

(** X8: [todo:remove] leaves exactly the tasks with another id, in their
    order, and broadcasts the resulting list to every session.  On the
    collection the id is the [_id] the given string is cast to (and
    deleting one document is enough because [_id]s are unique); when the
    string cannot be cast, nothing is removed and nothing is sent. *)
Theorem remove_keeps_the_other_tasks (connected : bool) (w : World)
    (s : Server) (id : string) :
  id <> "" ->
  (connected = true -> NoDup (map d_id (collection s))) ->
  let r := handleMessage connected w s (todo_remove (Some id)) in
  match (if connected then cast_oid w id else Some id) with
  | Some oid =>
      tasks connected r.1 =
        filter (fun t => t_id t <> Some oid) (tasks connected s) /\
      r.2 = [Broadcast (sync_replace (getAllTodos connected r.1)) false]
  | None => r = (s, [])
  end.
Proof.
  intros Hne Hnd. cbn [handleMessage].
  destruct (String.eqb_spec id ""); [contradiction|].
  destruct connected; cbv zeta.
  - unfold Durable.remove, Mongo.findByIdAndDelete.
    destruct (cast_oid w id) as [oid|]; [|reflexivity].
    split; [|reflexivity]. unfold tasks. cbn [fst collection set_collection].
    rewrite (delete_as_filter oid _ (Hnd eq_refl)).
    rewrite (filter_toObject (fun t => t_id t <> Some oid)).
    f_equal. apply filter_equiv. intros d. simpl. split; congruence.
  - split; reflexivity.
Qed.

Lemma remove_keeps_the_other_tasks_witness :
  let s := (run true empty_server
              [(world_at 1, todo_add (task_payload "a" None));
               (world_at 2, todo_add (task_payload "b" None))]).1 in
  let r := handleMessage true (world_at 3) s (todo_remove (Some (first_id true))) in
  let r' := handleMessage true (world_at 3) s (todo_remove (Some "m_1")) in
  (tasks true r.1 = filter (fun t => t_id t <> Some (first_id true)) (tasks true s) /\
   r.2 = [Broadcast (sync_replace (getAllTodos true r.1)) false]) /\
  r' = (s, []).
Proof.
  intros s r r'. split.
  - apply (remove_keeps_the_other_tasks true (world_at 3) s (first_id true));
      [by vm_compute|].
    intros _. apply (bool_decide_unpack _). vm_compute. exact I.
  - apply (remove_keeps_the_other_tasks true (world_at 3) s "m_1");
      [discriminate|].
    intros _. apply (bool_decide_unpack _). vm_compute. exact I.
Defined.

Lemma filter_twice {A} (P : A -> Prop) `{!forall x, Decision (P x)} (l : list A) :
  filter P (filter P l) = filter P l.
Proof.
  induction l as [|x r IH]; [reflexivity|]. rewrite filter_cons.
  destruct (decide (P x)) as [Hx|Hx]; [|exact IH].
  rewrite filter_cons, decide_True by exact Hx. by rewrite IH.
Qed.

(** X9: [todo:clearCompleted] leaves exactly the tasks that are not
    completed, in their order, and broadcasts the resulting list; handled
    a second time it leaves the store as it is. *)
Theorem clearCompleted_keeps_the_open_tasks (connected : bool) (w w' : World)
    (s : Server) :
  let r := handleMessage connected w s todo_clearCompleted in
  tasks connected r.1 =
    filter (fun t => t_completed t = false) (tasks connected s) /\
  r.2 = [Broadcast (sync_replace (getAllTodos connected r.1)) false] /\
  (handleMessage connected w' r.1 todo_clearCompleted).1 = r.1.
Proof.
  cbn [handleMessage]. destruct connected; cbv zeta.
  - split; [|split; [reflexivity|]].
    + unfold tasks, Durable.clearCompleted. cbn [fst collection set_collection].
      by rewrite (filter_toObject (fun t => t_completed t = false)).
    + unfold Durable.clearCompleted. cbn [fst collection set_collection inMemory].
      by rewrite filter_twice.
  - split; [reflexivity|]. split; [reflexivity|].
    unfold Memory.clearCompleted. cbn [fst collection set_inMemory inMemory].
    by rewrite filter_twice.
Qed.

(** ** Messages that name no stored task *)

(** X10: a message whose id names no stored task changes nothing:
    [todo:edit] and [todo:toggle] send nothing at all, [todo:remove] still
    broadcasts the (unchanged) list.  On the collection the id names the
    document with the [_id] it is cast to; an id that cannot be cast
    changes nothing and sends nothing, [todo:remove] included. *)
Theorem unknown_id_changes_nothing (connected : bool) (w : World) (s : Server)
    (p : Payload) (id : string) :
  p_id p = Some id ->
  match (if connected then cast_oid w id else Some id) with
  | Some oid =>
      lookup_task connected s oid = None ->
      handleMessage connected w s (todo_edit p) = (s, []) /\
      handleMessage connected w s (todo_toggle (Some id)) = (s, []) /\
      handleMessage connected w s (todo_remove (Some id)) =
        (s, if String.eqb id "" then []
            else [Broadcast (sync_replace (getAllTodos connected s)) false])
  | None =>
      handleMessage connected w s (todo_edit p) = (s, []) /\
      handleMessage connected w s (todo_toggle (Some id)) = (s, []) /\
      handleMessage connected w s (todo_remove (Some id)) = (s, [])
  end.
Proof.
  intros Hp. cbn [handleMessage]. rewrite Hp.
  destruct connected.
  - unfold Durable.edit, Durable.toggle, Durable.remove, Mongo.findById,
      Mongo.findByIdAndUpdate, Mongo.findByIdAndDelete.
    destruct (cast_oid w id) as [oid|].
    + cbn [lookup_task]. intros Hnone. apply fmap_None in Hnone.
      destruct (String.eqb id ""); [by repeat split|].
      rewrite (update_absent _ _ _ Hnone), (delete_absent _ _ Hnone), Hnone.
      by rewrite set_collection_same.
    + by destruct (String.eqb id "").
  - cbn [lookup_task]. intros Hnone.
    destruct (String.eqb id ""); [by repeat split|].
    assert (findIndex id (inMemory s) = None) as Hidx.
    { unfold find_todo in Hnone. by apply fmap_None in Hnone. }
    unfold Memory.edit, Memory.toggle, Memory.remove. rewrite Hidx.
    split; [reflexivity|]. split; [reflexivity|].
    assert (filter (fun x => t_id x <> Some id) (inMemory s) = inMemory s) as ->.
    { apply filter_keeps_all. intros t Ht.
      by apply (proj1 (find_todo_None id (inMemory s)) Hnone). }
    by rewrite set_inMemory_same.
Qed.

Lemma unknown_id_changes_nothing_witness :
  let s := (handleMessage true (world_at 1) empty_server
              (todo_add (task_payload "a" None))).1 in
  let p := rename_payload absent_id "renamed" in
  let q := rename_payload "m_1" "renamed" in
  (handleMessage true (world_at 2) s (todo_edit p) = (s, []) /\
   handleMessage true (world_at 2) s (todo_toggle (Some absent_id)) = (s, []) /\
   handleMessage true (world_at 2) s (todo_remove (Some absent_id)) =
     (s, [Broadcast (sync_replace (getAllTodos true s)) false])) /\
  (handleMessage true (world_at 2) s (todo_edit q) = (s, []) /\
   handleMessage true (world_at 2) s (todo_toggle (Some "m_1")) = (s, []) /\
   handleMessage true (world_at 2) s (todo_remove (Some "m_1")) = (s, [])).
Proof.
  intros s p q. split.
  - exact (unknown_id_changes_nothing true (world_at 2) s p absent_id
             eq_refl eq_refl).
  - exact (unknown_id_changes_nothing true (world_at 2) s q "m_1" eq_refl).
Defined.

(** ** What toggle and reorder leave alone *)

Lemma Forall2_update_after {A} (R : A -> Doc -> Prop) (id : string)
    (f : Doc -> Doc) (c0 : list A) (c : list Doc) :
  (forall a b, R a b -> d_id b = id -> R a (f b)) ->
  Forall2 R c0 c -> Forall2 R c0 (Mongo.update_by_id id f c).
Proof.
  intros Hf. induction 1 as [|a b r0 r Hab Hr IH]; simpl; [constructor|].
  destruct (String.eqb_spec (d_id b) id); constructor; auto.
Qed.

Lemma Forall2_unlock_dependents {A} (R : A -> Doc -> Prop) (w : World)
    (s : Server) (c0 : list A) (l c : list Doc) :
  (forall a b, R a b -> R a (Mongo.set_locked false b)) ->
  Forall2 R c0 c -> Forall2 R c0 (Durable.unlock_dependents w s c l).1.
Proof.
  intros Hf. revert c. induction l as [|dep rest IH]; intros c Hc; [exact Hc|].
  simpl. destruct (computeLockedFor true w _ _ _) as [locked|]; [|exact Hc].
  destruct (negb locked && d_locked dep); [|by apply IH].
  assert (Forall2 R c0
            (Mongo.update_by_id (d_id dep) (Mongo.set_locked false) c)) as Hc'.
  { apply Forall2_update_after; [|exact Hc]. intros a b Hab _. by apply Hf. }
  destruct (Mongo.by_id _ _); [|exact Hc'].
  specialize (IH _ Hc'). by destruct (Durable.unlock_dependents w s _ rest).
Qed.

Lemma toggled_refl (id : string) (t : Todo) : toggled id t t.
Proof. by repeat split. Qed.

Lemma toggled_unlock (id : string) (t t' : Todo) :
  toggled id t t' -> toggled id t (Memory.set_locked false t').
Proof.
  intros (H1 & H2 & H3 & H4 & H5 & H6 & H7 & H8 & H9 & _).
  by repeat split.
Qed.

Lemma toggled_complete (id : string) (b : bool) (t t' : Todo) :
  toggled id t t' -> t_id t' = Some id ->
  toggled id t (Memory.set_completed b t').
Proof.
  intros (H1 & H2 & H3 & H4 & H5 & H6 & H7 & H8 & _ & H10) Hid.
  repeat split; try done. intros Hne. congruence.
Qed.

Lemma toggled_unlock_one (id : string) (m : list Todo) (tid : string)
    (t t' : Todo) :
  toggled id t t' -> toggled id t (unlock_one m tid t').
Proof.
  intros H. unfold unlock_one. destruct (unlocks m tid t'); [|exact H].
  by apply toggled_unlock.
Qed.

(** X11: [todo:toggle] keeps the tasks of the store in place and changes
    nothing of any of them but [completed], of the task with the toggled
    id only, and [locked], which it may clear and never sets.  On the
    collection the toggled id is the [_id] the given string is cast to. *)
Theorem toggle_touches_completed_and_clears_locks (connected : bool)
    (w : World) (s : Server) (oid : option string) :
  let r := handleMessage connected w s (todo_toggle oid) in
  let id := default "" (if connected then oid ≫= cast_oid w else oid) in
  Forall2 (toggled id) (tasks connected s) (tasks connected r.1).
Proof.
  cbn [handleMessage]. cbv zeta.
  assert (forall i (l : list Todo), Forall2 (toggled i) l l) as Hrefl.
  { intros i l. apply Forall2_same_length_lookup_2; [reflexivity|].
    intros j x y Hx Hy. assert (x = y) as -> by congruence. apply toggled_refl. }
  destruct oid as [id|]; [|apply Hrefl].
  destruct (String.eqb id ""); [apply Hrefl|]. cbn [default mbind option_bind].
  destruct connected; unfold tasks.
  - apply Forall2_fmap.
    destruct (toggle_collection w s id) as [->|(d0 & l & Hcast & _ & Hc)].
    { apply Forall2_fmap, Hrefl. }
    rewrite Hcast. cbn [default].
    assert (Forall2 (fun d d' => toggled (d_id d0) (Mongo.toObject d) (Mongo.toObject d'))
              (collection s)
              (Mongo.update_by_id (d_id d0)
                 (Mongo.set_completed (negb (d_completed d0))) (collection s)))
      as H1.
    { apply Forall2_update_after.
      - intros a b Hab Hb.
        apply (toggled_complete (d_id d0) _ (Mongo.toObject a) (Mongo.toObject b) Hab).
        simpl. by rewrite Hb.
      - apply Forall2_fmap, Hrefl. }
    destruct Hc as [->| ->]; [exact H1|].
    apply Forall2_unlock_dependents; [|exact H1].
    intros a b Hab.
    exact (toggled_unlock (d_id d0) (Mongo.toObject a) (Mongo.toObject b) Hab).
  - destruct (findIndex id (inMemory s)) as [[idx x]|] eqn:Hf.
    + pose proof (findIndex_Some _ _ _ _ Hf) as (Hidx & Hid & _).
      rewrite (toggle_memory_result s id idx x Hf). cbv zeta.
      set (x' := Memory.set_completed (negb (t_completed x)) x).
      assert (Forall2 (toggled id) (inMemory s) (<[idx := x']> (inMemory s))) as H1.
      { apply Forall2_same_length_lookup_2; [by rewrite length_insert|].
        intros i a b Ha Hb. destruct (decide (i = idx)) as [->|Hne].
        - rewrite list_lookup_insert_eq in Hb by (by eapply lookup_lt_Some).
          assert (a = x) as -> by congruence. injection Hb as <-.
          apply toggled_complete; [apply toggled_refl|exact Hid].
        - rewrite list_lookup_insert_ne in Hb by done.
          assert (a = b) as -> by congruence. apply toggled_refl. }
      destruct (t_completed x); cbn [fst inMemory set_inMemory]; [exact H1|].
      apply Forall2_same_length_lookup_2.
      { rewrite length_map. by apply Forall2_length in H1. }
      intros i a b Ha Hb.
      change (map (unlock_one (<[idx:=x']> (inMemory s)) id) (<[idx:=x']> (inMemory s)))
        with (unlock_one (<[idx:=x']> (inMemory s)) id <$> <[idx:=x']> (inMemory s)) in Hb.
      rewrite list_lookup_fmap in Hb.
      destruct (<[idx:=x']> (inMemory s) !! i) as [y|] eqn:Hy; [|discriminate].
      injection Hb as <-. apply toggled_unlock_one.
      by apply (Forall2_lookup_lr _ _ _ i a y H1).
    + unfold Memory.toggle. rewrite Hf. apply Hrefl.
Qed.

Lemma repositioned_refl (d : Doc) : repositioned d d.
Proof. unfold repositioned. by destruct d. Qed.

Lemma reorder_from_repositioned (w : World) (i : nat) (order : list string)
    (c0 c : list Doc) :
  Forall2 repositioned c0 c ->
  Forall2 repositioned c0 (Durable.reorder_from w i order c).1.
Proof.
  revert i c. induction order as [|id rest IH]; intros i c Hc; [exact Hc|].
  simpl. unfold Mongo.findByIdAndUpdate.
  destruct (cast_oid w id) as [oid|]; [|exact Hc].
  apply IH. apply Forall2_update_after; [|exact Hc].
  intros a b Hab _. exact Hab.
Qed.

(** X12: [todo:reorder] changes positions and nothing else: on the
    collection every document stays in place with all its other fields;
    in memory, with tasks stored under distinct names, the entry for a
    listed id is the stored task with its position replaced. *)
Theorem reorder_changes_positions_only (w : World) (s : Server)
    (order : list string) :
  NoDup (map Memory.key_of (inMemory s)) ->
  Forall2 repositioned (collection s)
    (collection (handleMessage true w s (todo_reorder order)).1) /\
  (forall i id t, order !! i = Some id -> t ∈ inMemory s -> t_id t = Some id ->
     inMemory (handleMessage false w s (todo_reorder order)).1 !! i =
     Some (Memory.set_position (Z.of_nat i) t)).
Proof.
  intros Hnd. cbn [handleMessage]. split.
  - rewrite reorder_collection.
    apply reorder_from_repositioned.
    apply Forall2_same_length_lookup_2; [reflexivity|].
    intros i x y Hx Hy. assert (x = y) as -> by congruence.
    apply repositioned_refl.
  - intros i id t Hi Hin Hid.
    cbn [Memory.reorder fst inMemory set_inMemory].
    rewrite list_lookup_imap, Hi. cbn [fmap option_fmap option_map].
    unfold Memory.reorder_entry.
    assert (Memory.key_of t = id) as <- by (unfold Memory.key_of; by rewrite Hid).
    by rewrite (get_stored _ _ Hnd Hin).
Qed.

Lemma reorder_changes_positions_only_witness :
  let s := (run false empty_server
              [(world_at 1, todo_add (task_payload "a" None));
               (world_at 2, todo_add (task_payload "b" None))]).1 in
  Forall (fun t =>
            forall i id, ["m_1"; "m_2"] !! i = Some id -> t_id t = Some id ->
              inMemory (handleMessage false (world_at 3) s
                          (todo_reorder ["m_1"; "m_2"])).1 !! i =
              Some (Memory.set_position (Z.of_nat i) t))
    (inMemory s).
Proof.
  intros s. apply Forall_forall. intros t Hin i id Hi Hid.
  assert (NoDup (map Memory.key_of (inMemory s))) as Hnd.
  { apply (bool_decide_unpack _). vm_compute. exact I. }
  destruct (reorder_changes_positions_only (world_at 3) s ["m_1"; "m_2"] Hnd)
    as [_ Hmem].
  by apply (Hmem i id t).
Defined.

(** ** Unique ids on the collection *)

Lemma unlock_dependents_ids (w : World) (s : Server) (l c : list Doc) :
  map d_id (Durable.unlock_dependents w s c l).1 = map d_id c.
Proof.
  revert c. induction l as [|dep rest IH]; intros c; [reflexivity|].
  simpl. destruct (computeLockedFor true w _ _ _) as [locked|]; [|reflexivity].
  destruct (negb locked && d_locked dep); [|apply IH].
  destruct (Mongo.by_id _ _).
  - specialize (IH (Mongo.update_by_id (d_id dep) (Mongo.set_locked false) c)).
    destruct (Durable.unlock_dependents w s _ rest). simpl in *.
    rewrite IH. by apply update_ids.
  - simpl. by apply update_ids.
Qed.

Lemma NoDup_ids_filter (P : Doc -> Prop) `{!forall d, Decision (P d)}
    (c : list Doc) :
  NoDup (map d_id c) -> NoDup (map d_id (filter P c)).
Proof.
  induction c as [|x r IH]; intros Hnd; [constructor|].
  apply NoDup_cons in Hnd as [Hx Hnd]. rewrite filter_cons.
  destruct (decide (P x)); [|by apply IH].
  simpl. apply NoDup_cons. split; [|by apply IH].
  intros Hin. apply Hx. apply list_elem_of_fmap in Hin as (d & Hd & Hin).
  apply list_elem_of_filter in Hin as [_ Hin].
  apply list_elem_of_fmap. by exists d.
Qed.

Lemma delete_ids_NoDup (id : string) (c : list Doc) :
  NoDup (map d_id c) -> NoDup (map d_id (Mongo.delete_by_id id c)).
Proof.
  intros Hnd. rewrite (delete_as_filter id c Hnd). by apply NoDup_ids_filter.
Qed.

Lemma edit_ids (w : World) (s : Server) (id : string) (p : Payload) :
  map d_id (collection (Durable.edit w s id p).1) = map d_id (collection s).
Proof.
  destruct (edit_collection w s id p)
    as [->|(oid & _ & [[-> _]|(d1 & _ & _ & ->)])].
  - reflexivity.
  - by apply update_ids.
  - rewrite update_ids by reflexivity. by apply update_ids.
Qed.

Lemma toggle_ids (w : World) (s : Server) (id : string) :
  map d_id (collection (Durable.toggle w s id).1) = map d_id (collection s).
Proof.
  destruct (toggle_collection w s id) as [->|(d0 & l & _ & _ & [->| ->])].
  - reflexivity.
  - by apply update_ids.
  - rewrite unlock_dependents_ids. by apply update_ids.
Qed.

Lemma restored_ids (w : World) (items : list Todo) :
  map d_id (imap (Durable.restored w) items) =
  map (new_oid w) (seq 0 (length items)).
Proof.
  change (map d_id (imap (Durable.restored w) items))
    with (d_id <$> imap (Durable.restored w) items).
  rewrite fmap_imap. apply (imap_seq_0 items (new_oid w)).
Qed.

(** X13: on the collection the ids stay unique: when the ids the store
    hands out for a message are new and distinct, a collection without
    duplicate ids has none after the message, whatever the message. *)
Theorem collection_ids_stay_unique (w : World) (s : Server) (msg : ClientMsg) :
  NoDup (map d_id (collection s)) ->
  fresh_oids w s msg ->
  NoDup (map d_id (collection (handleMessage true w s msg).1)).
Proof.
  intros Hnd Hfresh.
  destruct msg as [|todo|p|oid|oid| | |order|items]; cbn [handleMessage].
  - exact Hnd.
  - destruct (add_collection w s todo) as [->|(locked & _ & _ & ->)]; [exact Hnd|].
    rewrite map_app.
    apply NoDup_app. split; [exact Hnd|]. split.
    + intros x Hx Hx'. apply list_elem_of_singleton in Hx'. subst x.
      by apply Hfresh.
    + apply NoDup_singleton.
  - destruct (p_id p) as [id|]; [|exact Hnd].
    destruct (String.eqb id ""); [exact Hnd|]. by rewrite edit_ids.
  - destruct oid as [id|]; [|exact Hnd].
    destruct (String.eqb id ""); [exact Hnd|].
    destruct (remove_collection w s id) as [->|(o & _ & ->)]; [exact Hnd|].
    by apply delete_ids_NoDup.
  - destruct oid as [id|]; [|exact Hnd].
    destruct (String.eqb id ""); [exact Hnd|]. by rewrite toggle_ids.
  - by apply NoDup_ids_filter.
  - constructor.
  - by rewrite reorder_collection, reorder_from_ids.
  - unfold Durable.restoreMany. destruct (forallb _ items); [|exact Hnd].
    cbn [fst collection set_collection]. rewrite map_app, restored_ids.
    destruct Hfresh as [Hnew Hold].
    apply NoDup_app. split; [exact Hnd|]. split; [|exact Hnew].
    intros x Hx Hx'. apply list_elem_of_fmap in Hx' as (i & -> & Hi).
    apply elem_of_seq in Hi. apply (Hold i); [lia|exact Hx].
Qed.

Lemma collection_ids_stay_unique_witness :
  let s := (handleMessage true (world_at 1) empty_server
              (todo_add (task_payload "a" None))).1 in
  NoDup (map d_id (collection
                     (handleMessage true (world_at 2) s
                        (todo_restoreMany [sample_snapshot; sample_snapshot])).1)).
Proof.
  intros s.
  apply (collection_ids_stay_unique (world_at 2) s
           (todo_restoreMany [sample_snapshot; sample_snapshot])).
  - apply (bool_decide_unpack _). vm_compute. exact I.
  - split.
    + apply (bool_decide_unpack _). vm_compute. exact I.
    + intros i Hi. simpl in Hi.
      destruct i as [|[|i]]; [| |lia];
        apply (bool_decide_unpack _); vm_compute; exact I.
Defined.

(** ** Restoring on the collection *)

Lemma restored_sorted (w : World) (items : list Todo) :
  StronglySorted (fun a b => Mongo.sort_le a b = true)
    (imap (Durable.restored w) items).
Proof.
  apply StronglySorted_of_lookup. intros i j a b Hij Hi Hj.
  rewrite list_lookup_imap in Hi, Hj.
  destruct (items !! i); simpl in Hi; [|discriminate].
  destruct (items !! j); simpl in Hj; [|discriminate].
  injection Hi as <-. injection Hj as <-.
  apply lower_position_first. simpl. lia.
Qed.

(** X14: on the collection, when every snapshot has a text and the clock
    is above the stored positions, [todo:restoreMany] lists the restored
    tasks after all the others, in the order given, and each of them
    unlocked, without dependencies and without due date, whatever the
    snapshot held. *)
Theorem restored_tasks_are_listed_last (w : World) (s : Server)
    (items : list Todo) :
  forallb (fun t => truthy (t_text t)) items = true ->
  (forall d, d ∈ collection s -> d_position d < now w) ->
  let r := handleMessage true w s (todo_restoreMany items) in
  let restored := map Mongo.toObject (imap (Durable.restored w) items) in
  r.2 = [Broadcast (sync_replace (getAllTodos true s ++ restored)) false] /\
  length restored = length items /\
  Forall (fun t => t_locked t = false /\ t_dependencies t = Some [] /\
                   t_dueDate t = None /\ t_dueTime t = None) restored.
Proof.
  intros Htext Hpos. cbn [handleMessage]. unfold Durable.restoreMany.
  rewrite Htext. cbv zeta. cbn [snd]. split; [|split].
  - unfold Durable.replace_all, getAllTodos. cbn [collection set_collection].
    rewrite sort_app_later.
    + by rewrite map_app.
    + intros x y Hx Hy. apply list_elem_of_lookup in Hy as (i & Hi).
      rewrite list_lookup_imap in Hi.
      destruct (items !! i); simpl in Hi; [|discriminate]. injection Hi as <-.
      apply lower_position_first. simpl. specialize (Hpos x Hx). lia.
    + apply restored_sorted.
  - by rewrite length_map, length_imap.
  - apply Forall_forall. intros t Ht.
    apply list_elem_of_fmap in Ht as (d & -> & Hd).
    apply list_elem_of_lookup in Hd as (i & Hi). rewrite list_lookup_imap in Hi.
    destruct (items !! i); simpl in Hi; [|discriminate]. by injection Hi as <-.
Qed.

Lemma restored_tasks_are_listed_last_witness :
  let s := (handleMessage true (world_at 1700000000000) empty_server
              (todo_add (task_payload "a" None))).1 in
  let w := world_at 1700000060000 in
  (handleMessage true w s (todo_restoreMany [sample_snapshot])).2 =
  [Broadcast
     (sync_replace
        (getAllTodos true s ++
         map Mongo.toObject (imap (Durable.restored w) [sample_snapshot])))
     false].
Proof.
  intros s w.
  apply (restored_tasks_are_listed_last w s [sample_snapshot]).
  - reflexivity.
  - intros d Hd. vm_compute in Hd. apply list_elem_of_singleton in Hd as ->.
    reflexivity.
Defined.

(** X15: on the collection a write without a text is dropped whole:
    [todo:add] without a text, and [todo:restoreMany] with a snapshot
    without one, change nothing and send nothing; in memory the same
    [todo:add] stores the task. *)
Theorem textless_writes_are_dropped_on_collection (w : World) (s : Server)
    (p : Payload) (items : list Todo) :
  truthy (p_text p) = false ->
  Exists (fun t => truthy (t_text t) = false) items ->
  handleMessage true w s (todo_add p) = (s, []) /\
  handleMessage true w s (todo_restoreMany items) = (s, []) /\
  exists obj, inMemory (handleMessage false w s (todo_add p)).1 = obj :: inMemory s /\
              t_text obj = p_text p.
Proof.
  intros Hp Hitems. cbn [handleMessage]. split; [|split].
  - unfold Durable.add. rewrite Hp. by destruct (computeLockedFor true w s None _).
  - unfold Durable.restoreMany.
    replace (forallb (fun t => truthy (t_text t)) items) with false; [reflexivity|].
    symmetry. apply not_true_iff_false. intros Hall.
    rewrite forallb_forall in Hall. apply Exists_exists in Hitems as (t & Hin & Ht).
    rewrite (Hall t) in Ht; [discriminate|by apply list_elem_of_In].
  - unfold Memory.add. rewrite computeLockedFor_false. cbv zeta.
    eexists. split; reflexivity.
Qed.

Lemma textless_writes_are_dropped_on_collection_witness :
  let p := {| p_id := Some "tmp"; p_text := Value ""; p_completed := false;
              p_category := Undefined; p_priority := Undefined;
              p_dueDate := Undefined; p_dueTime := Undefined;
              p_dependencies := None |} in
  let items := [sample_snapshot; Memory.only_position 1] in
  handleMessage true (world_at 1) empty_server (todo_add p) = (empty_server, []) /\
  handleMessage true (world_at 1) empty_server (todo_restoreMany items)
    = (empty_server, []).
Proof.
  intros p items.
  destruct (textless_writes_are_dropped_on_collection (world_at 1) empty_server
              p items eq_refl) as (Hadd & Hrestore & _).
  - apply Exists_cons_tl, Exists_cons_hd. reflexivity.
  - by split.
Defined.

(** ** What the collection always holds *)

Lemma js_or_lit_nonempty (a : option string) (lit : string) :
  lit <> "" -> truthy (Some (js_or_lit a lit)) = true.
Proof.
  intros Hlit. apply truthy_Some. destruct a as [v|]; simpl; [|exact Hlit].
  destruct (String.eqb_spec v ""); [exact Hlit|done].
Qed.

Lemma or_null_nonempty (v : option string) : or_null v <> Some "".
Proof.
  unfold or_null, js_or. destruct (truthy v) eqn:E; [|discriminate].
  intros ->. discriminate.
Qed.

Lemma well_kept_edit (w : World) (p : Payload) (d : Doc) :
  well_kept d -> well_kept (Durable.edit_update w p d).
Proof.
  intros (Hp & Hd & Ht).
  unfold well_kept. simpl. split; [by apply js_or_lit_nonempty|]. split.
  - destruct (supplied (p_dueDate p)); [apply or_null_nonempty|exact Hd].
  - destruct (supplied (p_dueTime p)); [apply or_null_nonempty|exact Ht].
Qed.

Lemma durable_step_well_kept (w : World) (s : Server) (msg : ClientMsg) :
  Forall well_kept (collection s) ->
  Forall well_kept (collection (handleMessage true w s msg).1).
Proof.
  intros Hs.
  destruct msg as [|todo|p|oid|oid| | |order|items]; cbn [handleMessage].
  - exact Hs.
  - destruct (add_collection w s todo) as [->|(locked & _ & _ & ->)]; [exact Hs|].
    apply Forall_app. split; [exact Hs|]. constructor; [|constructor].
    unfold well_kept. simpl. split; [by apply js_or_lit_nonempty|].
    split; apply or_null_nonempty.
  - destruct (p_id p) as [id|]; [|exact Hs].
    destruct (String.eqb id ""); [exact Hs|].
    apply edit_pres; [apply well_kept_edit|by intros b d|exact Hs].
  - destruct oid as [id|]; [|exact Hs].
    destruct (String.eqb id ""); [exact Hs|].
    destruct (remove_collection w s id) as [->|(o & _ & ->)]; [exact Hs|].
    by apply Forall_delete.
  - destruct oid as [id|]; [|exact Hs].
    destruct (String.eqb id ""); [exact Hs|].
    apply toggle_pres; [by intros b d|by intros d|exact Hs].
  - by apply Forall_filter_pres.
  - constructor.
  - rewrite reorder_collection. by apply reorder_from_pres.
  - unfold Durable.restoreMany. destruct (forallb _ items); [|exact Hs].
    cbn [fst collection set_collection]. apply Forall_app. split; [exact Hs|].
    apply Forall_forall. intros d Hd.
    apply list_elem_of_lookup in Hd as (i & Hi). rewrite list_lookup_imap in Hi.
    destruct (items !! i); simpl in Hi; [|discriminate]. injection Hi as <-.
    unfold well_kept. simpl. split; [by apply js_or_lit_nonempty|by split].
Qed.

(** X16: whatever messages the server handles from an empty collection,
    every stored document has a non-empty priority, and a due date and a
    due time that are [null] or non-empty. *)
Theorem collection_documents_are_well_kept (msgs : list (World * ClientMsg)) :
  Forall well_kept (collection (run true empty_server msgs).1).
Proof.
  assert (forall s, Forall well_kept (collection s) ->
                    Forall well_kept (collection (run true s msgs).1)) as H.
  { induction msgs as [|[w msg] rest IH]; intros s Hs; [exact Hs|].
    simpl. pose proof (durable_step_well_kept w s msg Hs) as H1.
    destruct (handleMessage true w s msg) as [s1 out1].
    specialize (IH s1 H1). by destruct (run true s1 rest). }
  apply H. constructor.
Qed.

(** ** Who receives what *)

Lemma received_app (c : nat) (a b : list (nat * ServerMsg)) :
  received c (a ++ b) = received c a ++ received c b.
Proof. unfold received. by rewrite List.filter_app, map_app. Qed.

Lemma flat_map_single {A B} (key : A -> nat) (h : A -> list B) (l : list A)
    (a : A) :
  NoDup (map key l) -> a ∈ l -> (forall x, key x <> key a -> h x = []) ->
  flat_map h l = h a.
Proof.
  intros Hnd Hin Hh. induction l as [|x r IH]; [by apply elem_of_nil in Hin|].
  apply NoDup_cons in Hnd as [Hx Hnd]. simpl.
  apply elem_of_cons in Hin as [->|Hin].
  - replace (flat_map h r) with (@nil B); [by rewrite app_nil_r|].
    symmetry. clear IH Hnd. induction r as [|y r IH]; [reflexivity|].
    simpl. rewrite Hh, IH; [reflexivity| |].
    + intros H. apply Hx. by apply list_elem_of_further.
    + intros E. apply Hx. rewrite <- E. apply list_elem_of_here.
  - rewrite Hh, (IH Hnd Hin); [reflexivity|].
    intros E. apply Hx. rewrite E. apply list_elem_of_fmap. by exists a.
Qed.

Lemma received_broadcast_each (clients : list Client) (m : ServerMsg)
    (except : option nat) (c : nat) :
  received c (broadcast clients m except) =
  flat_map
    (fun x => if c_open x && negb (bool_decide (Some (c_id x) = except))
                 && Nat.eqb (c_id x) c
              then [m] else []) clients.
Proof.
  unfold received, broadcast. induction clients as [|x r IH]; [reflexivity|].
  simpl. destruct (c_open x && negb (bool_decide (Some (c_id x) = except))); simpl.
  - destruct (Nat.eqb (c_id x) c); simpl; by rewrite IH.
  - exact IH.
Qed.

Lemma received_broadcast (clients : list Client) (m : ServerMsg)
    (except : option nat) (cl : Client) :
  NoDup (map c_id clients) -> cl ∈ clients -> Some (c_id cl) <> except ->
  received (c_id cl) (broadcast clients m except) =
  if c_open cl then [m] else [].
Proof.
  intros Hnd Hin Hex. rewrite received_broadcast_each.
  rewrite (flat_map_single c_id _ clients cl Hnd Hin).
  - rewrite bool_decide_eq_false_2 by exact Hex.
    rewrite Nat.eqb_refl. by destruct (c_open cl).
  - intros x Hx. rewrite (proj2 (Nat.eqb_neq _ _) Hx). by rewrite andb_false_r.
Qed.

(** X17: of the messages sent for the events of one handler run, a
    session other than the requester receives every broadcast, each once
    and in the order of the events, when its socket is open, and nothing
    when it is closed; the replies sent to the requester never reach it. *)
Theorem other_sessions_receive_the_broadcasts (clients : list Client)
    (ws : nat) (out : list Event) (cl : Client) :
  NoDup (map c_id clients) -> cl ∈ clients -> c_id cl <> ws ->
  received (c_id cl) (fanout clients ws out) =
  if c_open cl then broadcasts out else [].
Proof.
  intros Hnd Hin Hne. unfold fanout, broadcasts.
  induction out as [|e out IH]; [by destruct (c_open cl)|].
  cbn [flat_map]. rewrite received_app, IH.
  destruct e as [m|m [|]].
  - unfold received. simpl. rewrite (proj2 (Nat.eqb_neq ws (c_id cl))) by done.
    by destruct (c_open cl).
  - rewrite (received_broadcast clients m (Some ws) cl Hnd Hin) by congruence.
    by destruct (c_open cl).
  - rewrite (received_broadcast clients m None cl Hnd Hin) by discriminate.
    by destruct (c_open cl).
Qed.

Lemma other_sessions_receive_the_broadcasts_witness :
  let clients := [mkClient 1 true; mkClient 2 true; mkClient 3 false] in
  let out := (handleMessage false (world_at 1) empty_server
                (todo_add (rename_payload "tmp" "a"))).2 in
  received 2 (fanout clients 1 out) = broadcasts out.
Proof.
  intros clients out.
  apply (other_sessions_receive_the_broadcasts clients 1 out (mkClient 2 true)).
  - apply (bool_decide_unpack _). vm_compute. exact I.
  - apply list_elem_of_further, list_elem_of_here.
  - discriminate.
Defined.

(** ** [replaceAllTodos] *)

Lemma js_or_lit_falsy_or_same (a : option string) (lit : string) :
  js_or_lit (Some (js_or_lit a lit)) lit = js_or_lit a lit.
Proof.
  simpl. destruct (String.eqb_spec (js_or_lit a lit) "") as [E|]; [|reflexivity].
  rewrite E. destruct a as [v|]; simpl in E; [|exact E].
  destruct (String.eqb_spec v ""); [exact E|contradiction].
Qed.

Lemma or_null_twice (v : option string) : or_null (or_null v) = or_null v.
Proof. unfold or_null, js_or. destruct (truthy v) eqn:E; [by rewrite E|reflexivity]. Qed.

Lemma replaced_todo_again (w w' : World) (i : nat) (t : Todo) :
  replaced_todo w' i (replaced_todo w i t) = replaced_todo w i t.
Proof.
  unfold replaced_todo. cbn [t_id t_text t_completed t_category t_priority
    t_position t_dueDate t_dueTime t_dependencies t_locked default].
  f_equal.
  - f_equal. unfold replaced_id. cbn [t_id].
    set (fresh := "m_" +:+ pretty (now w) +:+ "_" +:+ pretty i).
    destruct (String.eqb (js_or_lit (t_id t) fresh) "") eqn:E;
      simpl; rewrite E; [|reflexivity].
    exfalso. apply String.eqb_eq in E.
    destruct (t_id t) as [v|]; simpl in E; [|discriminate].
    destruct (String.eqb_spec v ""); [discriminate|contradiction].
  - f_equal. apply js_or_lit_falsy_or_same.
  - f_equal. apply js_or_lit_falsy_or_same.
  - apply or_null_twice.
  - apply or_null_twice.
Qed.

Lemma replaced_list_again (w w' : World) (todos : list Todo) :
  imap (replaced_todo w') (imap (replaced_todo w) todos) =
  imap (replaced_todo w) todos.
Proof.
  apply list_eq. intros i. rewrite !list_lookup_imap.
  destruct (todos !! i); simpl; [|reflexivity].
  by rewrite replaced_todo_again.
Qed.

(** X18: in memory [replaceAllTodos] stores the list it returns, gives
    the [i]-th item the position [i], keeps every non-empty id, and is
    idempotent: applied to its own result, at any later time, it stores
    and returns the same list. *)
Theorem replaceAllTodos_in_memory_is_idempotent (w w' : World) (s : Server)
    (todos : list Todo) :
  let r := replaceAllTodos false w s todos in
  exists m,
    r.2 = Some m /\ inMemory r.1 = m /\
    map t_position m = map Z.of_nat (seq 0 (length todos)) /\
    (forall i t, todos !! i = Some t -> truthy (t_id t) = true ->
       t_id <$> m !! i = Some (t_id t)) /\
    replaceAllTodos false w' r.1 m = (r.1, Some m).
Proof.
  cbv zeta. unfold replaceAllTodos at 1 2 3. cbn [fst snd inMemory set_inMemory].
  exists (imap (replaced_todo w) todos).
  split; [reflexivity|]. split; [reflexivity|]. split; [|split].
  - change (map t_position (imap (replaced_todo w) todos))
      with (t_position <$> imap (replaced_todo w) todos).
    rewrite fmap_imap. apply (imap_seq_0 todos Z.of_nat).
  - intros i t Hi Hid. rewrite list_lookup_imap, Hi. simpl.
    unfold replaced_id. by rewrite js_or_lit_truthy.
  - unfold replaceAllTodos. by rewrite replaced_list_again.
Qed.

Lemma replaced_docs_sorted (w : World) (todos : list Todo) :
  StronglySorted (fun a b => Mongo.sort_le a b = true)
    (imap (replaced_doc w) todos).
Proof.
  apply StronglySorted_of_lookup. intros i j a b Hij Hi Hj.
  rewrite list_lookup_imap in Hi, Hj.
  destruct (todos !! i); simpl in Hi; [|discriminate].
  destruct (todos !! j); simpl in Hj; [|discriminate].
  injection Hi as <-. injection Hj as <-.
  apply lower_position_first. simpl. lia.
Qed.

(** X19: on the collection [replaceAllTodos] discards what was stored;
    when every item has a text, the list it returns is the list
    [getAllTodos] gives afterwards, one task per item in the order given
    with positions 0, 1, ...; when an item has no text the promise is
    rejected and the collection is left empty. *)
Theorem replaceAllTodos_on_collection (w : World) (s : Server)
    (todos : list Todo) :
  let r := replaceAllTodos true w s todos in
  if forallb (fun t => truthy (t_text t)) todos then
    exists l, r.2 = Some l /\ getAllTodos true r.1 = l /\
      length l = length todos /\
      map t_position l = map Z.of_nat (seq 0 (length todos))
  else collection r.1 = [] /\ r.2 = None.
Proof.
  cbv zeta. unfold replaceAllTodos.
  destruct (forallb _ todos); [|by split].
  cbn [fst snd]. eexists. split; [reflexivity|]. split; [|split].
  - unfold getAllTodos. cbn [collection set_collection].
    by rewrite sort_sorted_id by apply replaced_docs_sorted.
  - by rewrite length_map, length_imap.
  - change (map t_position (map Mongo.toObject (imap (replaced_doc w) todos)))
      with (t_position <$> (Mongo.toObject <$> imap (replaced_doc w) todos)).
    rewrite <- list_fmap_compose, fmap_imap. apply (imap_seq_0 todos Z.of_nat).
Qed.

(** ** The REST endpoints *)

(** X20: [POST /api/todos] without a text answers 400 and changes
    nothing.  With a text it stores the task with the priority of the
    body, whatever the due date: [low] when the body has no priority, and
    [null] when the priority of the body is [null].  The task is stored
    unlocked and without reading dependencies, and the answer carries it;
    [GET /api/todos] then lists it last on the collection and first in
    memory. *)
Theorem post_todo_stores_without_deriving (connected : bool) (w : World)
    (s : Server) (body : Payload) :
  let r := post_todo connected w s body in
  if truthy (p_text body) then
    exists t, r.2 = res_todo t /\
      t_priority t =
        match p_priority body with
        | Undefined => Some "low"
        | Null => None
        | Value v => Some v
        end /\
      t_locked t = false /\ t_dependencies t = None /\
      get_todos connected r.1 =
        res_todos (if connected
                   then getAllTodos true s ++ [with_no_dependencies t]
                   else t :: getAllTodos false s)
  else r = (s, res_error 400 "text required").
Proof.
  cbv zeta. unfold post_todo. destruct (truthy (p_text body)); [|reflexivity].
  destruct connected; cbn [fst snd].
  - eexists. split; [reflexivity|]. repeat split.
    unfold get_todos, getAllTodos. cbn [collection set_collection]. f_equal.
    rewrite sort_app_later.
    + by rewrite map_app.
    + intros x y Hx Hy. apply list_elem_of_singleton in Hy as ->.
      apply lower_position_first. cbn [d_position]. by apply next_position_after.
    + repeat constructor.
  - eexists. split; [reflexivity|]. by repeat split.
Qed.

(** ** Messages that reach no handler *)

Lemma decode_unknown (raw : RawMsg) (type : string) :
  m_type raw = Some type -> type ∉ message_types -> decode raw = None.
Proof.
  intros Ht Hno. unfold decode. rewrite Ht.
  repeat match goal with
         | |- context [String.eqb type ?k] =>
             destruct (String.eqb_spec type k) as [->|_];
             [exfalso; apply Hno; unfold message_types;
              repeat (first [apply list_elem_of_here|apply list_elem_of_further])|]
         end.
  reflexivity.
Qed.

(** X21: a message without a [type], or with one [handleMessage] does not
    know, is dropped: nothing changes and nothing is sent.  So are
    [todo:reorder] without an [order] array and [todo:restoreMany] without
    an [items] array.  [todo:removeAll] does what [todo:clearAll] does. *)
Theorem unhandled_messages_are_dropped (connected : bool) (w : World)
    (s : Server) (raw : RawMsg) :
  (m_type raw = None \/
   (exists type, m_type raw = Some type /\ type ∉ message_types) \/
   (m_type raw = Some "todo:reorder" /\ m_order raw = None) \/
   (m_type raw = Some "todo:restoreMany" /\ m_items raw = None) ->
   incoming connected w s raw = (s, [])) /\
  (m_type raw = Some "todo:removeAll" ->
   incoming connected w s raw = handleMessage connected w s todo_clearAll).
Proof.
  unfold incoming. split.
  - intros [H|[(type & Ht & Hno)|[[Ht Ho]|[Ht Hi]]]].
    + unfold decode. by rewrite H.
    + by rewrite (decode_unknown raw type Ht Hno).
    + unfold decode. rewrite Ht, Ho. reflexivity.
    + unfold decode. rewrite Ht, Hi. reflexivity.
  - intros Ht. unfold decode. rewrite Ht. reflexivity.
Qed.

(** ** Positions after a reorder *)

(** With unique ids, the document that carries the id after the update
    is the updated one. *)
Lemma update_elem_same (id : string) (f : Doc -> Doc) (c : list Doc) (d' : Doc) :
  (forall d, d_id (f d) = d_id d) ->
  NoDup (map d_id c) ->
  d' ∈ Mongo.update_by_id id f c -> d_id d' = id ->
  exists d, d ∈ c /\ d_id d = id /\ d' = f d.
Proof.
  intros Hf. induction c as [|x r IH]; simpl; intros Hnd Hin Hid.
  { by apply elem_of_nil in Hin. }
  apply NoDup_cons in Hnd as [Hx Hnd].
  destruct (String.eqb_spec (d_id x) id) as [E|E];
    apply elem_of_cons in Hin as [->|Hin].
  - exists x. split; [apply elem_of_cons; by left|done].
  - exfalso. apply Hx. rewrite E, <- Hid. apply list_elem_of_fmap. by exists d'.
  - contradiction.
  - destruct (IH Hnd Hin Hid) as (d & Hd & Hdid & ->).
    exists d. split; [apply elem_of_cons; by right|done].
Qed.

Lemma reorder_from_finished (w : World) (i : nat) (order oids : list string)
    (c : list Doc) :
  Mongo.cast_all w order = Some oids -> (Durable.reorder_from w i order c).2 = true.
Proof.
  unfold Mongo.cast_all. intros H. apply mapM_Some_1 in H. revert i c.
  induction H as [|id oid order oids Hc Hr IH]; intros i c; [reflexivity|].
  simpl. unfold Mongo.findByIdAndUpdate. rewrite Hc. apply IH.
Qed.

Lemma reorder_from_stops (w : World) (i : nat) (order : list string)
    (c : list Doc) :
  Mongo.cast_all w order = None -> (Durable.reorder_from w i order c).2 = false.
Proof.
  unfold Mongo.cast_all. intros H. apply mapM_None_1 in H. revert i c.
  induction H as [id order Hc|id order Hr IH]; intros i c; simpl;
    unfold Mongo.findByIdAndUpdate.
  - by rewrite Hc.
  - destruct (cast_oid w id); [apply IH|reflexivity].
Qed.

Lemma reorder_from_elem_other (w : World) (i : nat) (order oids : list string)
    (c : list Doc) (d' : Doc) :
  Mongo.cast_all w order = Some oids ->
  d' ∈ (Durable.reorder_from w i order c).1 -> d_id d' ∉ oids -> d' ∈ c.
Proof.
  unfold Mongo.cast_all. intros H. apply mapM_Some_1 in H. revert i c.
  induction H as [|id oid order oids Hc Hr IH]; intros i c Hin Hno; [exact Hin|].
  simpl in Hin. unfold Mongo.findByIdAndUpdate in Hin. rewrite Hc in Hin.
  apply not_elem_of_cons in Hno as [Hne Hno].
  apply IH in Hin; [|exact Hno].
  apply update_elem in Hin as [H|(d & _ & Hid & ->)]; [exact H|].
  simpl in Hne. congruence.
Qed.

(** After the loop of [todo:reorder], the document denoted by the [k]-th
    id has position [i + k], when the ids denote distinct documents. *)
Lemma reorder_from_position (w : World) (i : nat) (order oids : list string)
    (c : list Doc) (k : nat) (oid : string) (d' : Doc) :
  Mongo.cast_all w order = Some oids ->
  NoDup oids -> NoDup (map d_id c) ->
  oids !! k = Some oid ->
  d' ∈ (Durable.reorder_from w i order c).1 -> d_id d' = oid ->
  d_position d' = Z.of_nat (i + k).
Proof.
  unfold Mongo.cast_all. intros H. apply mapM_Some_1 in H. revert i c k.
  induction H as [|id0 oid0 order oids Hc0 Hr IH]; intros i c k Hnd Hc Hk Hin Hid.
  { by rewrite lookup_nil in Hk. }
  apply NoDup_cons in Hnd as [Hid0 Hnd]. simpl in Hin.
  unfold Mongo.findByIdAndUpdate in Hin. rewrite Hc0 in Hin.
  destruct k as [|k]; simpl in Hk.
  - injection Hk as ->.
    apply (reorder_from_elem_other w (S i) order oids) in Hin;
      [|by apply mapM_Some_2|by rewrite Hid].
    apply update_elem_same in Hin as (d & _ & _ & ->); [|done|exact Hc|exact Hid].
    simpl. f_equal. lia.
  - replace (i + S k)%nat with (S i + k)%nat by lia.
    eapply IH; [exact Hnd| |exact Hk|exact Hin|exact Hid].
    by rewrite update_ids.
Qed.

(** X22: after [todo:reorder] with ids that denote distinct tasks, every
    task of the store whose id is the [i]-th of them has position [i],
    and the resulting list is broadcast; on the collection, where an id
    denotes the [_id] it is cast to, the loop stops at an id that cannot
    be cast and nothing is sent. *)
Theorem reorder_sets_positions (connected : bool) (w : World) (s : Server)
    (order : list string) :
  (connected = true -> NoDup (map d_id (collection s))) ->
  let r := handleMessage connected w s (todo_reorder order) in
  match (if connected then Mongo.cast_all w order else Some order) with
  | Some oids =>
      NoDup oids ->
      (forall i oid t, oids !! i = Some oid -> t ∈ tasks connected r.1 ->
         t_id t = Some oid -> t_position t = Z.of_nat i) /\
      r.2 = [Broadcast (sync_replace (getAllTodos connected r.1)) false]
  | None => r.2 = []
  end.
Proof.
  intros Hc. cbn [handleMessage]. destruct connected; cbv zeta.
  - specialize (Hc eq_refl). unfold Durable.reorder.
    destruct (Mongo.cast_all w order) as [oids|] eqn:Hcast.
    + intros Hnd.
      pose proof (reorder_from_finished w 0 order oids (collection s) Hcast) as Hf.
      pose proof (reorder_from_position w 0 order oids (collection s)) as Hpos.
      destruct (Durable.reorder_from w 0 order (collection s)) as [c' fin].
      simpl in Hf. subst fin. split; [|reflexivity].
      intros i oid t Hi Hin Hid. cbn [fst tasks collection set_collection] in Hin.
      apply list_elem_of_fmap in Hin as (d & -> & Hin). simpl in Hid.
      injection Hid as Hid. simpl.
      by apply (Hpos i oid d Hcast Hnd Hc Hi Hin).
    + pose proof (reorder_from_stops w 0 order (collection s) Hcast) as Hf.
      destruct (Durable.reorder_from w 0 order (collection s)) as [c' fin].
      simpl in Hf. by subst fin.
  - intros Hnd. split; [|reflexivity].
    intros i oid t Hi Hin Hid. cbn [Memory.reorder fst tasks inMemory set_inMemory] in Hin.
    apply list_elem_of_lookup in Hin as (j & Hj).
    rewrite list_lookup_imap in Hj.
    destruct (order !! j) as [id'|] eqn:Ej; simpl in Hj; [|discriminate].
    injection Hj as <-. apply reorder_entry_id in Hid. subst id'.
    rewrite reorder_entry_position.
    by rewrite (NoDup_lookup order i j oid Hnd Hi Ej).
Qed.

Lemma reorder_sets_positions_witness :
  let s := (run true empty_server
              [(world_at 1, todo_add (task_payload "a" None));
               (world_at 2, todo_add (task_payload "b" None));
               (world_at 3, todo_add (task_payload "c" None))]).1 in
  let order := [sample_oid 3 0; sample_oid 1 0; sample_oid 2 0] in
  let r := handleMessage true (world_at 4) s (todo_reorder order) in
  let r' := handleMessage true (world_at 4) s (todo_reorder [sample_oid 3 0; "m_1"]) in
  Forall (fun t =>
            (t_id t = Some (sample_oid 3 0) -> t_position t = 0) /\
            (t_id t = Some (sample_oid 1 0) -> t_position t = 1) /\
            (t_id t = Some (sample_oid 2 0) -> t_position t = 2))
    (tasks true r.1) /\
  r'.2 = [].
Proof.
  intros s order r r'.
  assert (true = true -> NoDup (map d_id (collection s))) as Hc.
  { intros _. apply (bool_decide_unpack _). vm_compute. exact I. }
  split.
  - apply Forall_forall. intros t Hin.
    destruct (reorder_sets_positions true (world_at 4) s order Hc) as [Hpos _].
    { apply (bool_decide_unpack _). vm_compute. exact I. }
    split; [|split]; intros Hid.
    + by apply (Hpos 0%nat (sample_oid 3 0) t).
    + by apply (Hpos 1%nat (sample_oid 1 0) t).
    + by apply (Hpos 2%nat (sample_oid 2 0) t).
  - exact (reorder_sets_positions true (world_at 4) s [sample_oid 3 0; "m_1"] Hc).
Defined.

(** ** An edit that stops half way *)

(** X23: on the collection [todo:edit] writes the update before it
    computes the lock.  When a dependency the task then has cannot be
    cast, the update stays written, with the new dependencies, but
    [locked] keeps the value it had and nothing is broadcast. *)
Theorem edit_stops_at_uncastable_dependency (w : World) (s : Server)
    (p : Payload) (id : string) (d : Doc) :
  p_id p = Some id -> id <> "" -> cast_oid w id = Some id ->
  Mongo.by_id id (collection s) = Some d ->
  Mongo.cast_all w (d_dependencies (Durable.edit_update w p d)) = None ->
  let r := handleMessage true w s (todo_edit p) in
  r.2 = [] /\
  (forall id',
     Mongo.by_id id' (collection r.1) =
     if String.eqb id' id then Some (Durable.edit_update w p d)
     else Mongo.by_id id' (collection s)) /\
  d_locked (Durable.edit_update w p d) = d_locked d.
Proof.
  intros Hp Hne Hcast Hd Hdeps. cbn [handleMessage]. rewrite Hp.
  destruct (String.eqb_spec id ""); [contradiction|]. cbv zeta.
  unfold Durable.edit.
  rewrite (findByIdAndUpdate_cast w id id _ _ Hcast).
  rewrite (findById_cast w id id _ Hcast).
  rewrite by_id_update_same, Hd by reflexivity. cbn [fmap option_fmap option_map].
  rewrite computeLockedFor_rejects by exact Hdeps.
  cbn [fst snd collection set_collection].
  split; [reflexivity|]. split; [|reflexivity].
  intros id'. destruct (String.eqb_spec id' id) as [->|Hne'].
  - rewrite by_id_update_same by reflexivity. by rewrite Hd.
  - by apply by_id_update_other.
Qed.

Lemma edit_stops_at_uncastable_dependency_witness :
  let s := (run true empty_server (reopen_session true)).1 in
  let p := {| p_id := Some (second_id true); p_text := Undefined;
              p_completed := false; p_category := Undefined;
              p_priority := Undefined; p_dueDate := Undefined;
              p_dueTime := Undefined;
              p_dependencies := Some ["m_1"] |} in
  let r := handleMessage true (world_at 5) s (todo_edit p) in
  r.2 = [] /\
  (t_dependencies <$> lookup_task true r.1 (second_id true)) = Some (Some ["m_1"]) /\
  (t_locked <$> lookup_task true r.1 (second_id true)) = Some false.
Proof.
  intros s p r.
  destruct (Mongo.by_id (second_id true) (collection s)) as [d|] eqn:Hd;
    [|by vm_compute in Hd].
  destruct (edit_stops_at_uncastable_dependency (world_at 5) s p (second_id true) d
              eq_refl ltac:(by vm_compute) eq_refl Hd eq_refl)
    as (Hout & Hfind & Hlocked).
  split; [exact Hout|]. unfold lookup_task. subst r.
  cbn [tasks]. rewrite (Hfind (second_id true)), String.eqb_refl. simpl.
  split; [reflexivity|]. f_equal.
  vm_compute in Hd. by injection Hd as <-.
Defined.
